(** * Tick_data: a shallow embedding of the tick producer and the tick recorder

    Two programs are embedded here:
    - [kite_to_file_producer.py]: a bounded queue between the feed callback
      and a writer thread that drains it in batches (module [Producer]);
    - [nifty_spot_option_tick_recorder.py]: a CSV recorder that keeps the
      feed subscribed to the option band around the at-the-money strike
      (module [Recorder]).

    Module [Py] holds the fragment of Python both programs rely on: dynamic
    values, truthiness, [int()], [round()], true division, exceptions. *)

From Stdlib Require Import ZArith String Ascii List Floats Lia.
From stdpp Require Import gmap strings list.

(** ** Python values and primitives *)
Module Py.

Local Open Scope Z_scope.

(** The exceptions the two programs can meet. All of them derive from
    [Exception], so [except Exception] catches every one. *)
Inductive exn :=
| TypeError | ValueError | OverflowError | AttributeError | KeyError | IndexError
| OSError.

(** A computation that returns or raises. *)
Inductive result (A : Type) :=
| Ok (a : A)
| Raise (e : exn).
Arguments Ok {A} a.
Arguments Raise {A} e.

#[global] Instance result_ret : MRet result := @Ok.
#[global] Instance result_bind : MBind result :=
  λ A B f r, match r with Ok a => f a | Raise e => Raise e end.
#[global] Instance result_fmap : FMap result :=
  λ A B f r, match r with Ok a => Ok (f a) | Raise e => Raise e end.

(** [datetime.date] and the time of day of a [datetime.datetime]. *)
Record date := mkdate { year : Z; month : Z; day : Z }.
Record daytime := mktime { hour : Z; minute : Z; second : Z; microsecond : Z }.

#[global] Instance date_eq_dec : EqDecision date.
Proof. solve_decision. Defined.
#[global] Instance date_countable : Countable date.
Proof.
  apply (inj_countable' (λ d, (year d, month d, day d))
                        (λ t, mkdate t.1.1 t.1.2 t.2)).
  by intros [].
Defined.

(** Dynamic values: what a raw tick or a catalog entry can hold.  Strings
    are byte strings (ASCII); a [dict] keeps its items in insertion order
    and has string keys. *)
#[warnings="-register-all"]
Inductive pyval :=
| PNone
| PBool (b : bool)
| PInt (z : Z)
| PFloat (f : float)
| PStr (s : string)
| PDate (d : date)
| PDateTime (d : date) (t : daytime)
| PDict (items : list (string * pyval)).

(** *** Truthiness *)
Definition float_is_zero (f : float) : bool :=
  match Prim2SF f with S754_zero _ => true | _ => false end.

Definition truthy (v : pyval) : bool :=
  match v with
  | PNone => false
  | PBool b => b
  | PInt z => negb (z =? 0)
  | PFloat f => negb (float_is_zero f)
  | PStr s => negb (String.eqb s "")
  | PDate _ | PDateTime _ _ => true
  | PDict items => match items with [] => false | _ => true end
  end.

(** [a or b] *)
Definition py_or (a b : pyval) : pyval := if truthy a then a else b.

(** *** Dictionaries *)
Fixpoint assoc (k : string) (items : list (string * pyval)) : option pyval :=
  match items with
  | [] => None
  | (k', v) :: rest => if String.eqb k k' then Some v else assoc k rest
  end.

(** What [d.get(k)] finds among the items of a dict. *)
Definition field (items : list (string * pyval)) (k : string) : pyval :=
  match assoc k items with Some v => v | None => PNone end.

(** [d.get(k, default)]; a value that is not a dict has no [get]. *)
Definition py_get (d : pyval) (k : string) (default : pyval) : result pyval :=
  match d with
  | PDict items => Ok (match assoc k items with Some v => v | None => default end)
  | _ => Raise AttributeError
  end.

(** [d[k]]; none of the other values can be indexed by a string. *)
Definition py_getitem (d : pyval) (k : string) : result pyval :=
  match d with
  | PDict items => match assoc k items with Some v => Ok v | None => Raise KeyError end
  | _ => Raise TypeError
  end.

(** *** Strings *)
Definition upper_ascii (c : ascii) : ascii :=
  let n := nat_of_ascii c in
  if ((97 <=? n) && (n <=? 122))%nat then ascii_of_nat (n - 32) else c.

Fixpoint str_upper (s : string) : string :=
  match s with
  | EmptyString => EmptyString
  | String c s' => String (upper_ascii c) (str_upper s')
  end.

(** [v.upper()]: only a string has the method. *)
Definition py_upper (v : pyval) : result string :=
  match v with
  | PStr s => Ok (str_upper s)
  | _ => Raise AttributeError
  end.

Definition is_digit (c : ascii) : bool :=
  let n := nat_of_ascii c in ((48 <=? n) && (n <=? 57))%nat.
Definition is_upper (c : ascii) : bool :=
  let n := nat_of_ascii c in ((65 <=? n) && (n <=? 90))%nat.
Definition is_space (c : ascii) : bool :=
  let n := nat_of_ascii c in
  (((9 <=? n) && (n <=? 13)) || ((28 <=? n) && (n <=? 32)))%nat.
Definition digit_val (c : ascii) : Z := Z.of_nat (nat_of_ascii c) - 48.

Fixpoint lstrip (cs : list ascii) : list ascii :=
  match cs with
  | c :: cs' => if is_space c then lstrip cs' else cs
  | [] => []
  end.
Definition strip (cs : list ascii) : list ascii := rev (lstrip (rev (lstrip cs))).

(** Decimal digits with single underscores between digits, as [int()]
    accepts them; [prev] tells whether the previous character was a digit. *)
Fixpoint parse_digits (acc : Z) (prev : bool) (cs : list ascii) : option Z :=
  match cs with
  | [] => if prev then Some acc else None
  | c :: cs' =>
      if is_digit c then parse_digits (10 * acc + digit_val c) true cs'
      else if Ascii.eqb c "_" then (if prev then parse_digits acc false cs' else None)
      else None
  end.

(** [int(s)] in base 10. *)
Definition int_of_string (s : string) : result Z :=
  let body := strip (list_ascii_of_string s) in
  let '(neg, ds) :=
    match body with
    | c :: rest => if Ascii.eqb c "-" then (true, rest)
                   else if Ascii.eqb c "+" then (false, rest)
                   else (false, body)
    | [] => (false, [])
    end in
  match parse_digits 0 false ds with
  | Some n => Ok (if neg then - n else n)
  | None => Raise ValueError
  end.

(** *** Floats (IEEE 754 binary64, as Python's [float]) *)

(** [int(f)]: truncation toward zero. *)
Definition int_of_float (f : float) : result Z :=
  match Prim2SF f with
  | S754_nan => Raise ValueError
  | S754_infinity _ => Raise OverflowError
  | S754_zero _ => Ok 0
  | S754_finite s m e =>
      let a := if 0 <=? e then Z.shiftl (Z.pos m) e else Z.shiftr (Z.pos m) (- e) in
      Ok (if s then - a else a)
  end.

(** [round(f)] with one argument: the nearest integer, ties to even. *)
Definition py_round (f : float) : result Z :=
  match Prim2SF f with
  | S754_nan => Raise ValueError
  | S754_infinity _ => Raise OverflowError
  | S754_zero _ => Ok 0
  | S754_finite s m e =>
      let a :=
        if 0 <=? e then Z.shiftl (Z.pos m) e
        else
          let k := - e in
          let q := Z.shiftr (Z.pos m) k in
          let r := Z.pos m - Z.shiftl q k in
          let half := Z.shiftl 1 (k - 1) in
          if (half <? r) || ((half =? r) && Z.odd q) then q + 1 else q in
      Ok (if s then - a else a)
  end.

(** [a / b] on two ints, [b > 0]: the double nearest to the exact quotient
    (ties to even), [OverflowError] beyond the largest double.  The mantissa
    is computed on 53 bits; this is exact as long as the quotient is not
    subnormal, which holds for every divisor below [2^1000]. *)
Definition int_truediv (a : Z) (b : positive) : result float :=
  if a =? 0 then Ok 0%float
  else
    let n := Z.abs a in
    let e0 := Z.log2 n - Z.log2 (Z.pos b) - 53 in
    let num := if 0 <=? e0 then n else Z.shiftl n (- e0) in
    let den0 := if 0 <=? e0 then Z.shiftl (Z.pos b) e0 else Z.pos b in
    let '(den, e) := if 2 ^ 53 <=? num / den0 then (2 * den0, e0 + 1) else (den0, e0) in
    let q := num / den in
    let r := num - q * den in
    let m := if (den <? 2 * r) || ((den =? 2 * r) && Z.odd q) then q + 1 else q in
    if 2 ^ 1024 <=? (if 0 <=? e then Z.shiftl m e else 0) then Raise OverflowError
    else Ok (SF2Prim (S754_finite (a <? 0) (Z.to_pos m) e)).

(** [int(v)] *)
Definition py_int (v : pyval) : result Z :=
  match v with
  | PBool b => Ok (Z.b2z b)
  | PInt z => Ok z
  | PFloat f => int_of_float f
  | PStr s => int_of_string s
  | PNone | PDate _ | PDateTime _ _ | PDict _ => Raise TypeError
  end.

(** [v / b] for an int constant [b > 0]. *)
Definition py_truediv (v : pyval) (b : positive) : result float :=
  match v with
  | PBool x => int_truediv (Z.b2z x) b
  | PInt z => int_truediv z b
  | PFloat f =>
      match int_truediv (Z.pos b) 1 with
      | Ok fb => Ok (f / fb)%float
      | Raise e => Raise e
      end
  | PNone | PStr _ | PDate _ | PDateTime _ _ | PDict _ => Raise TypeError
  end.

(** The integer that a float is equal to, when there is one. *)
Definition float_exact_int (f : float) : option Z :=
  match Prim2SF f with
  | S754_zero _ => Some 0
  | S754_finite s m e =>
      let sign := if s then -1 else 1 in
      if 0 <=? e then Some (sign * Z.shiftl (Z.pos m) e)
      else if Z.pos m mod 2 ^ (- e) =? 0 then Some (sign * Z.shiftr (Z.pos m) (- e))
      else None
  | S754_infinity _ | S754_nan => None
  end.

(** The integer that a number is equal to, when there is one. *)
Definition as_int (v : pyval) : option Z :=
  match v with
  | PBool b => Some (Z.b2z b)
  | PInt z => Some z
  | PFloat f => float_exact_int f
  | _ => None
  end.

(** [a == b] on scalars: numbers compare by value, whatever their type. *)
Definition py_eq (a b : pyval) : bool :=
  match a, b with
  | PNone, PNone => true
  | PFloat f, PFloat g => PrimFloat.eqb f g
  | PStr x, PStr y => String.eqb x y
  | PDate d, PDate e => bool_decide (d = e)
  | _, _ => match as_int a, as_int b with
            | Some x, Some y => x =? y
            | _, _ => false
            end
  end.

(** *** Dates *)
Definition digit_char (d : Z) : ascii := ascii_of_nat (48 + Z.to_nat (d mod 10)).
Definition digits2 (n : Z) : string :=
  String (digit_char (n / 10)) (String (digit_char n) EmptyString).
Definition digits3 (n : Z) : string := String (digit_char (n / 100)) (digits2 n).
Definition digits4 (n : Z) : string := String (digit_char (n / 1000)) (digits3 n).

(** [d.isoformat()]: YYYY-MM-DD. *)
Definition isoformat (d : date) : string :=
  digits4 (year d) +:+ "-" +:+ digits2 (month d) +:+ "-" +:+ digits2 (day d).

Definition is_leap (y : Z) : bool :=
  ((y mod 4 =? 0) && negb (y mod 100 =? 0)) || (y mod 400 =? 0).
Definition days_in_month (y m : Z) : Z :=
  if m =? 2 then (if is_leap y then 29 else 28)
  else if (m =? 4) || (m =? 6) || (m =? 9) || (m =? 11) then 30 else 31.

(** [date(y, m, d)]: [ValueError] outside the calendar. *)
Definition make_date (y m d : Z) : result date :=
  if (1 <=? y) && (y <=? 9999) && (1 <=? m) && (m <=? 12)
     && (1 <=? d) && (d <=? days_in_month y m)
  then Ok (mkdate y m d) else Raise ValueError.

(** [a <= b] and [a < b] on two naive [datetime.time]: the order of the
    tuples (hour, minute, second, microsecond). *)
Definition time_lt (a b : daytime) : bool :=
  (hour a <? hour b)
  || ((hour a =? hour b)
      && ((minute a <? minute b)
          || ((minute a =? minute b)
              && ((second a <? second b)
                  || ((second a =? second b) && (microsecond a <? microsecond b)))))).
Definition time_le (a b : daytime) : bool := negb (time_lt b a).

(** The microseconds from midnight to a time of day. *)
Definition micros_of_day (t : daytime) : Z :=
  ((hour t * 60 + minute t) * 60 + second t) * 1000000 + microsecond t.

(** A time of day as [datetime.time] holds it. *)
Definition valid_time (t : daytime) : Prop :=
  0 <= hour t < 24 ∧ 0 <= minute t < 60 ∧ 0 <= second t < 60 ∧
  0 <= microsecond t < 1000000.

Definition is_dict (v : pyval) : bool :=
  match v with PDict _ => true | _ => false end.

(** *** Stateful code
    Functions that read and write module globals thread the state; the state
    reached when an exception is raised is kept, as the globals are. *)
Definition exec (S A : Type) : Type := S → result A * S.

#[global] Instance exec_ret {S} : MRet (exec S) := λ A a s, (Ok a, s).
#[global] Instance exec_bind {S} : MBind (exec S) :=
  λ A B f m s, match m s with
               | (Ok a, s') => f a s'
               | (Raise e, s') => (Raise e, s')
               end.

Definition gets {S A} (f : S → A) : exec S A := λ s, (Ok (f s), s).
Definition modify {S} (f : S → S) : exec S unit := λ s, (Ok tt, f s).
Definition lift {S A} (r : result A) : exec S A := λ s, (r, s).

(** [for x in l: acc = body(x, acc)] *)
Fixpoint for_each {S A B} (l : list A) (body : A → B → exec S B) (acc : B) : exec S B :=
  match l with
  | [] => mret acc
  | x :: l' => acc' ← body x acc; for_each l' body acc'
  end.

(** The same loop for a body that touches no state. *)
Fixpoint fold_result {A B} (l : list A) (body : A → B → result B) (acc : B) : result B :=
  match l with
  | [] => Ok acc
  | x :: l' => match body x acc with
               | Ok acc' => fold_result l' body acc'
               | Raise e => Raise e
               end
  end.

End Py.

(** ** The producer: [kite_to_file_producer.py] *)
Module Producer.
Import Py.
Local Open Scope Z_scope.

Definition QUEUE_MAXLEN : Z := 200000.

(** *** [collections.deque(maxlen=...)] *)
Section Deque.
Context {A : Type}.

(** [q.append(x)]: the item goes to the right end; a deque that then
    holds more than [maxlen] items drops its leftmost one. *)
Definition deque_append (maxlen : Z) (q : list A) (x : A) : list A :=
  let q' := q ++ [x] in
  if maxlen <? Z.of_nat (length q') then tail q' else q'.

(** [while q: batch.append(q.popleft())] *)
Fixpoint drain (q batch : list A) : list A * list A :=
  match q with
  | [] => ([], batch)
  | x :: q' => drain q' (batch ++ [x])
  end.

(** A run of appends, left to right. *)
Definition deque_extend (maxlen : Z) (q : list A) (xs : list A) : list A :=
  fold_left (deque_append maxlen) xs q.
End Deque.

(** The dict that [on_ticks] builds and the writer serializes, one per line. *)
Record qtick := mkqtick {
  q_instrument_token : pyval;
  q_tradingsymbol : pyval;
  q_last_price : pyval;
  q_timestamp : string;
}.

(** What a flush meets on the file system: it succeeds, or [open] or a
    [write] raises [OSError] once [n] lines of the batch are in the file. *)
Inductive io_outcome :=
| IoOk
| IoError (n : nat).

(** The writer thread runs its loop, or an exception has ended it. *)
Inductive thread_status :=
| Running
| Died (e : exn).

(** Module state: the queue and its event, and what the outside sees of the
    writer thread: the lines of [OUT_FILE] ([json.dumps(tick)] each), the
    thread's status, and the errors [dbg] printed. *)
Record pstate := mkpstate {
  write_queue : list qtick;
  queue_event : bool;
  out_file : list qtick;
  writer : thread_status;
  dbg_out : list exn;
}.

Definition set_queue (q : list qtick) (ev : bool) (s : pstate) : pstate :=
  mkpstate q ev (out_file s) (writer s) (dbg_out s).

(** The module right after import: empty queue, event clear, writer thread
    started; [f0] is what [OUT_FILE] already holds. *)
Definition initial (f0 : list qtick) : pstate := mkpstate [] false f0 Running [].

(** [enqueue_tick(t)], one critical section. *)
Definition enqueue_tick (t : qtick) (s : pstate) : pstate :=
  set_queue (deque_append QUEUE_MAXLEN (write_queue s) t) true s.

(** The critical section of [_writer_loop]: drain, then clear the event. *)
Definition drain_locked (s : pstate) : list qtick * pstate :=
  let '(q', batch) := drain (write_queue s) [] in
  (batch, set_queue q' false s).

(** The flush of a batch, outside the lock.  Nothing catches an exception
    here, so it leaves the [while True] and ends the thread. *)
Definition write_batch (io : io_outcome) (batch : list qtick) (s : pstate) : pstate :=
  match io with
  | IoOk => mkpstate (write_queue s) (queue_event s) (out_file s ++ batch) (writer s) (dbg_out s)
  | IoError n =>
      mkpstate (write_queue s) (queue_event s) (out_file s ++ take n batch)
               (Died OSError) (dbg_out s)
  end.

(** One pass of the body of [while True] in [_writer_loop]. *)
Definition writer_cycle (io : io_outcome) (s : pstate) : pstate :=
  match writer s with
  | Died _ => s
  | Running =>
      let '(batch, s1) := drain_locked s in
      match batch with
      | [] => s1
      | _ => write_batch io batch s1
      end
  end.

(** The two threads meet only under [_queue_lock], so a run of the module
    is an interleaving of enqueues and writer passes. *)
Inductive event :=
| Enqueue (t : qtick)
| WriterPass (io : io_outcome).

Definition step (s : pstate) (ev : event) : pstate :=
  match ev with
  | Enqueue t => enqueue_tick t s
  | WriterPass io => writer_cycle io s
  end.

Definition run (evs : list event) (s : pstate) : pstate := fold_left step evs s.

(** *** The feed callback *)
Section Callback.
(** The builtin [str]. *)
Variable py_str : pyval → string.

Definition TS_KEYS : list string := ["timestamp"; "last_trade_time"; "exchange_timestamp"].

(** [_extract_ts_from_tick(t)]; [now] is what
    [datetime.now(timezone.utc).isoformat()] returns at the call. *)
Fixpoint extract_ts_loop (now : string) (keys : list string) (t : pyval) : result string :=
  match keys with
  | [] => Ok now
  | k :: keys' =>
      v ← py_get t k PNone;
      if truthy v then (v' ← py_get t k PNone; Ok (py_str v'))
      else extract_ts_loop now keys' t
  end.

Definition _extract_ts_from_tick (now : string) (t : pyval) : result string :=
  extract_ts_loop now TS_KEYS t.

(** The dict literal passed to [enqueue_tick], fields in evaluation order. *)
Definition normalize (now : string) (t : pyval) : result qtick :=
  tok ← py_get t "instrument_token" PNone;
  sym ← py_get t "tradingsymbol" PNone;
  ltp ← py_get t "last_price" PNone;
  ts ← _extract_ts_from_tick now t;
  Ok (mkqtick tok sym ltp ts).

(** The body of the [for] in [on_ticks]: [try ... except Exception]. *)
Definition on_tick (now : string) (t : pyval) (s : pstate) : pstate :=
  match normalize now t with
  | Ok r => enqueue_tick r s
  | Raise e =>
      mkpstate (write_queue s) (queue_event s) (out_file s) (writer s) (dbg_out s ++ [e])
  end.

(** [on_ticks(ws, ticks)]; [clock i] is the wall-clock reading while the
    record at position [i] of the feed's delivery is handled. *)
Fixpoint on_ticks_from (clock : nat → string) (i : nat) (ticks : list pyval)
         (s : pstate) : pstate :=
  match ticks with
  | [] => s
  | t :: rest => on_ticks_from clock (S i) rest (on_tick (clock i) t s)
  end.

Definition on_ticks (clock : nat → string) (ticks : list pyval) (s : pstate) : pstate :=
  on_ticks_from clock 0 ticks s.

(** The outcome of normalizing each record of a delivery, and from it the
    records accepted and the errors met. *)
Fixpoint outcomes (clock : nat → string) (i : nat) (ticks : list pyval)
  : list (result qtick) :=
  match ticks with
  | [] => []
  | t :: rest => normalize (clock i) t :: outcomes clock (S i) rest
  end.
Definition accepted (clock : nat → string) (i : nat) (ticks : list pyval) : list qtick :=
  omap (λ r, match r with Ok q => Some q | Raise _ => None end) (outcomes clock i ticks).
Definition rejected (clock : nat → string) (i : nat) (ticks : list pyval) : list exn :=
  omap (λ r, match r with Ok _ => None | Raise e => Some e end) (outcomes clock i ticks).
End Callback.

(** The capacity as a count of records. *)
Definition CAP : nat := Z.to_nat QUEUE_MAXLEN.

(** *** Sample data *)

(** The record enqueued for the [i]-th tick of a burst. *)
Definition numbered_tick (i : nat) : qtick :=
  mkqtick (PInt (Z.of_nat i)) (PStr "NIFTY 50") PNone "".

(** A burst of [QUEUE_MAXLEN + 1] ticks, all enqueued between two passes of
    the writer. *)
Definition overflow_burst : list qtick :=
  map numbered_tick (seq 0 (Z.to_nat (QUEUE_MAXLEN + 1))).

(** *** Connecting and stopping *)

Definition SYMBOLS : list string := ["NIFTY 50"].
Definition MARKET_CLOSE : daytime := mktime 15 15 0 0.

(** The calls that [on_connect] makes on the feed. *)
Inductive feed_call :=
| Subscribe (tokens : list Z)
| SetModeFull (tokens : list Z).

(** The list comprehension of [on_connect] over the NSE catalog: the filter
    [i["tradingsymbol"].upper() in wanted] runs on every entry, [int] on the
    entries it keeps. *)
Fixpoint wanted_tokens (instruments : list pyval) : result (list Z) :=
  match instruments with
  | [] => Ok []
  | i :: rest =>
      sym ← (v ← py_getitem i "tradingsymbol"; py_upper v);
      if bool_decide (sym ∈ map str_upper SYMBOLS) then
        tok ← (v ← py_getitem i "instrument_token"; py_int v);
        toks ← wanted_tokens rest;
        Ok (tok :: toks)
      else wanted_tokens rest
  end.

(** [on_connect(ws, resp)]; [instruments] is what [kite.instruments("NSE")]
    returned.  The result is the list of calls made on [ws]. *)
Definition on_connect (instruments : list pyval) : result (list feed_call) :=
  tokens ← wanted_tokens instruments;
  Ok [Subscribe tokens; SetModeFull tokens].

(** [should_exit()]; [now] is [datetime.now(IST).time()]. *)
Definition should_exit (now : daytime) : bool := time_le MARKET_CLOSE now.

(** *** What a run enqueues *)

(** The records that the enqueues of a run carry, in order. *)
Fixpoint enqueued (evs : list event) : list qtick :=
  match evs with
  | [] => []
  | Enqueue t :: rest => t :: enqueued rest
  | WriterPass _ :: rest => enqueued rest
  end.

(** Every flush of the run succeeds. *)
Fixpoint flushes_succeed (evs : list event) : bool :=
  match evs with
  | [] => true
  | Enqueue _ :: rest => flushes_succeed rest
  | WriterPass IoOk :: rest => flushes_succeed rest
  | WriterPass (IoError _) :: rest => false
  end.

(** No more than [QUEUE_MAXLEN] records wait between two writer passes of
    the run; [n] is the number that wait at its start. *)
Fixpoint bursts_fit (n : Z) (evs : list event) : bool :=
  match evs with
  | [] => true
  | Enqueue _ :: rest => (n + 1 <=? QUEUE_MAXLEN) && bursts_fit (n + 1) rest
  | WriterPass _ :: rest => bursts_fit 0 rest
  end.

(** What the producer keeps of a dict. *)
Definition keeps_fields (t : pyval) (r : qtick) : Prop :=
  ∃ items, t = PDict items ∧
           q_instrument_token r = field items "instrument_token" ∧
           q_tradingsymbol r = field items "tradingsymbol" ∧
           q_last_price r = field items "last_price".

End Producer.

(** ** The recorder: [nifty_spot_option_tick_recorder.py] *)
Module Recorder.
Import Py.
Local Open Scope Z_scope.

Definition STRIKE_STEP : positive := 50.
Definition OPTION_EXPIRIES : list date :=
  [mkdate 2026 1 20; mkdate 2026 1 27; mkdate 2026 2 3].

(** A [pandas.Timestamp]; [NaT] is the missing one. *)
Inductive timestamp :=
| NaT
| Stamp (d : date) (t : daytime).

(** A key of [_nfo_index_by_key]: (underlying, strike, opt_type, expiry). *)
Definition option_key : Type := string * Z * string * date.

(** A value of [option_meta_by_token], the dict built per catalog entry. *)
Record option_meta := mkmeta {
  m_expiry : date;
  m_strike : Z;
  m_opt_type : string;
  m_tradingsymbol : string;
}.

(** The calls made on the feed adapter [ws]; the adapter is taken as a
    recorder of the calls it receives. *)
Inductive ws_call :=
| WsSubscribe (tokens : list Z)
| WsSetModeFull (tokens : list Z)
| WsUnsubscribe (tokens : list Z).

(** A row handed to [tick_writer.writerow], cell by cell. *)
Record row := mkrow {
  r_timestamp : string;
  r_instrument_token : Z;
  r_tradingsymbol : pyval;
  r_kind : string;
  r_last_price : pyval;
  r_expiry : string;
  r_strike : pyval;
  r_option_type : string;
}.

(** The module globals, the calls received by the feed and the rows written. *)
Record state := mkstate {
  token_to_sym : gmap Z pyval;
  _nfo_index_by_key : gmap option_key pyval;
  option_meta_by_token : gmap Z option_meta;
  current_atm_strike : option Z;
  current_option_tokens : gset Z;
  subscribed_tokens : gset Z;
  spot_tokens : list Z;
  ws_calls : list ws_call;
  csv_rows : list row;
}.

Definition set_token_sym (tok : Z) (tsym : pyval) (s : state) : state :=
  mkstate (<[tok := tsym]> (token_to_sym s)) (_nfo_index_by_key s) (option_meta_by_token s)
          (current_atm_strike s) (current_option_tokens s) (subscribed_tokens s)
          (spot_tokens s) (ws_calls s) (csv_rows s).

Definition set_band (atm : option Z) (tokens : gset Z) (s : state) : state :=
  mkstate (token_to_sym s) (_nfo_index_by_key s) (option_meta_by_token s)
          atm tokens (subscribed_tokens s)
          (spot_tokens s) (ws_calls s) (csv_rows s).

Definition set_subscribed (sub : gset Z) (calls : list ws_call) (s : state) : state :=
  mkstate (token_to_sym s) (_nfo_index_by_key s) (option_meta_by_token s)
          (current_atm_strike s) (current_option_tokens s) sub
          (spot_tokens s) (ws_calls s ++ calls) (csv_rows s).

Definition add_row (r : row) (s : state) : state :=
  mkstate (token_to_sym s) (_nfo_index_by_key s) (option_meta_by_token s)
          (current_atm_strike s) (current_option_tokens s) (subscribed_tokens s)
          (spot_tokens s) (ws_calls s) (csv_rows s ++ [r]).

(** *** Utilities *)

(** [round_to_strike(price)]: [int(round(price / STRIKE_STEP) * STRIKE_STEP)],
    [None] on any exception. *)
Definition round_to_strike (price : pyval) : option Z :=
  match (q ← py_truediv price STRIKE_STEP; r ← py_round q; Ok (r * Z.pos STRIKE_STEP)) with
  | Ok z => Some z
  | Raise _ => None
  end.

Definition TS_KEYS : list string := ["timestamp"; "last_trade_time"; "exchange_timestamp"].

Section Pandas.
(** [pd.to_datetime] on one value. *)
Variable to_datetime : pyval → result timestamp.

(** [_extract_tick_ts(t)]; [now] is the date and time that
    [pd.Timestamp.now()] returns at the call.  The test [t.get(k)] is
    outside the [try]. *)
Fixpoint extract_ts_loop (now : date * daytime) (keys : list string) (t : pyval)
  : result timestamp :=
  match keys with
  | [] => Ok (Stamp now.1 now.2)
  | k :: keys' =>
      v ← py_get t k PNone;
      if truthy v then
        match (x ← py_getitem t k; to_datetime x) with
        | Ok ts => Ok ts
        | Raise _ => extract_ts_loop now keys' t
        end
      else extract_ts_loop now keys' t
  end.

Definition _extract_tick_ts (now : date * daytime) (t : pyval) : result timestamp :=
  extract_ts_loop now TS_KEYS t.

(** The timestamp that the field [k] of a dict provides: the field holds a
    value that is not empty and that [to_datetime] accepts. *)
Definition usable (items : list (string * pyval)) (k : string) : option timestamp :=
  if truthy (field items k) then
    match to_datetime (field items k) with
    | Ok ts => Some ts
    | Raise _ => None
    end
  else None.
End Pandas.

(** *** CSV *)

(** [ts.strftime("%Y-%m-%d %H:%M:%S.%f")[:-3]]; [NaT] has no [strftime]. *)
Definition strftime_ms (ts : timestamp) : result string :=
  match ts with
  | NaT => Raise ValueError
  | Stamp d t =>
      Ok (isoformat d +:+ " " +:+ digits2 (hour t) +:+ ":" +:+ digits2 (minute t)
          +:+ ":" +:+ digits2 (second t) +:+ "." +:+ digits3 (microsecond t / 1000))
  end.

(** [record_tick(ts, instrument_token, tradingsymbol, kind, last_price)].
    [meta] is [None] where the source leaves the three cells empty: for a
    kind other than "OPT", and for a token without metadata (the default
    [{}] of the lookup).  A [date] is never falsy, so an expiry found is
    always formatted. *)
Definition record_tick (ts : timestamp) (instrument_token : Z) (tradingsymbol : pyval)
           (kind : string) (last_price : pyval) : exec state unit :=
  meta ← gets (λ s, if String.eqb kind "OPT"
                    then option_meta_by_token s !! instrument_token else None);
  let expiry := match meta with Some m => isoformat (m_expiry m) | None => "" end in
  let strike := match meta with Some m => PInt (m_strike m) | None => PStr "" end in
  let opt_type := match meta with Some m => m_opt_type m | None => "" end in
  stamp ← lift (strftime_ms ts);
  modify (add_row (mkrow stamp instrument_token tradingsymbol kind last_price
                         expiry strike opt_type)).

(** *** The NFO index *)

(** The longest prefix of [cs] in the class [p], and the rest. *)
Fixpoint span (p : ascii → bool) (cs : list ascii) : list ascii * list ascii :=
  match cs with
  | c :: cs' => if p c then let '(run, rest) := span p cs' in (c :: run, rest)
                else ([], cs)
  | [] => ([], [])
  end.

Definition digits_value (ds : list ascii) : Z :=
  fold_left (λ acc c, 10 * acc + digit_val c) ds 0.

(** [_MONTH_MAP.get(m)] *)
Definition _MONTH_MAP (m : string) : option Z :=
  (λ p, Z.of_nat p.1 + 1) <$>
    list_find (λ x, x = m)
      ["JAN"; "FEB"; "MAR"; "APR"; "MAY"; "JUN"; "JUL"; "AUG"; "SEP"; "OCT"; "NOV"; "DEC"].

(** A match of [_TS_RE]: the groups [day] and [month].  Every part of the
    pattern is followed by a character outside its own class, so each group
    is a whole run of letters or digits; [$] also matches before a final
    newline. *)
Definition match_TS_RE (tsym : string) : option (list ascii * string) :=
  let '(und, r1) := span is_upper (list_ascii_of_string tsym) in
  let '(dd, r2) := span is_digit r1 in
  let '(mm, r3) := span is_upper r2 in
  let '(kk, r4) := span is_digit r3 in
  let tail_ok :=
    let r := string_of_list_ascii r4 in
    String.eqb r "CE" || String.eqb r "PE"
    || String.eqb r ("CE" +:+ String "010" "") || String.eqb r ("PE" +:+ String "010" "") in
  if negb (length und =? 0)%nat
     && ((length dd =? 1)%nat || (length dd =? 2)%nat)
     && (length mm =? 3)%nat
     && negb (length kk =? 0)%nat
     && tail_ok
  then Some (dd, string_of_list_ascii mm) else None.

(** [_parse_expiry_from_tradingsymbol(tsym)]; [today] is [date.today()]. *)
Definition _parse_expiry_from_tradingsymbol (today : date) (tsym : string)
  : result (option date) :=
  match match_TS_RE tsym with
  | None => Ok None
  | Some (dd, mm) =>
      let d := digits_value dd in
      match _MONTH_MAP mm with
      | None => Ok None
      | Some mon =>
          let y := if (mon <? month today) || ((mon =? month today) && (d <? day today))
                   then year today + 1 else year today in
          Some <$> make_date y mon d
      end
  end.

(** [datetime.strptime(s, "%Y-%m-%d").date()] *)
Definition strptime_ymd (s : string) : result date :=
  let cs := list_ascii_of_string s in
  let yy := take 4 cs in
  let '(mm, r2) := span is_digit (drop 5 cs) in
  let dd := match drop 1 r2 with
            | c :: rest => if Ascii.eqb c " " then rest else c :: rest
            | [] => []
            end in
  let m := digits_value mm in
  let d := digits_value dd in
  if (length yy =? 4)%nat && forallb is_digit yy
     && bool_decide (take 1 (drop 4 cs) = ["-"%char])
     && ((length mm =? 1)%nat || (length mm =? 2)%nat) && (1 <=? m) && (m <=? 12)
     && bool_decide (take 1 r2 = ["-"%char])
     && forallb is_digit dd
     && (if bool_decide (take 1 (drop 1 r2) = [" "%char])
         then (length dd =? 1)%nat && (1 <=? d)
         else ((length dd =? 1)%nat || (length dd =? 2)%nat) && (1 <=? d) && (d <=? 31))
  then make_date (digits_value yy) m d
  else Raise ValueError.

(** The expiry of a catalog entry, as the loop of
    [build_nfo_index_with_expiry] settles it.  Of the values that are neither
    a [datetime] nor a [date], only a string can match the format. *)
Definition entry_expiry (today : date) (ts : string) (expiry : pyval)
  : result (option date) :=
  if truthy expiry then
    match expiry with
    | PDateTime d _ => Ok (Some d)
    | PDate d => Ok (Some d)
    | PStr s =>
        match strptime_ymd s with
        | Ok d => Ok (Some d)
        | Raise _ => _parse_expiry_from_tradingsymbol today ts
        end
    | _ => _parse_expiry_from_tradingsymbol today ts
    end
  else _parse_expiry_from_tradingsymbol today ts.

(** The three dicts that [build_nfo_index_with_expiry] fills. *)
Record nfo_tables := mktables {
  t_index : gmap option_key pyval;
  t_ts_map : gmap string pyval;
  t_token_meta : gmap Z option_meta;
}.

(** One pass of the [for inst in instruments] body. *)
Definition index_entry (today : date) (inst : pyval) (acc : nfo_tables) : result nfo_tables :=
  ts ← (v ← py_get inst "tradingsymbol" PNone; py_upper (py_or v (PStr "")));
  let ts_map := <[ts := inst]> (t_ts_map acc) in
  strike ← (v ← py_get inst "strike" PNone;
            if truthy v then Some <$> py_int v else Ok None);
  opt_type ← (v ← py_get inst "option_type" PNone; py_upper (py_or v (PStr "")));
  expiry ← (v ← py_get inst "expiry" PNone; entry_expiry today ts v);
  underlying ← (v ← py_get inst "name" PNone; py_upper (py_or v (PStr "")));
  match strike, expiry with
  | Some k, Some exp =>
      if negb (String.eqb underlying "") && negb (k =? 0) && negb (String.eqb opt_type "")
      then
        let index := <[(underlying, k, opt_type, exp) := inst]> (t_index acc) in
        tok ← (v ← py_getitem inst "instrument_token"; py_int v);
        Ok (mktables index ts_map (<[tok := mkmeta exp k opt_type ts]> (t_token_meta acc)))
      else Ok (mktables (t_index acc) ts_map (t_token_meta acc))
  | _, _ => Ok (mktables (t_index acc) ts_map (t_token_meta acc))
  end.

(** [build_nfo_index_with_expiry()]; [instruments] is what
    [kite.instruments("NFO")] returned. *)
Fixpoint build_from (today : date) (instruments : list pyval) (acc : nfo_tables)
  : result nfo_tables :=
  match instruments with
  | [] => Ok acc
  | inst :: rest => acc' ← index_entry today inst acc; build_from today rest acc'
  end.

Definition build_nfo_index_with_expiry (today : date) (instruments : list pyval)
  : result nfo_tables :=
  build_from today instruments (mktables ∅ ∅ ∅).

(** [resolve_option(index, underlying, strike, opt_type, expiry)]:
    [None] stands for the pair [(None, None)]. *)
Definition resolve_option (index : gmap option_key pyval) (underlying : string)
           (strike : Z) (opt_type : string) (expiry : date) : result (option (Z * pyval)) :=
  match index !! (underlying, strike, opt_type, expiry) with
  | Some inst =>
      if truthy inst then
        tok ← (v ← py_getitem inst "instrument_token"; py_int v);
        tsym ← py_getitem inst "tradingsymbol";
        Ok (Some (tok, tsym))
      else Ok None
  | None => Ok None
  end.

(** *** Subscriptions *)

(** [subscribe_tokens(ws, tokens)] *)
Definition subscribe_tokens (tokens : list Z) : exec state unit :=
  modify (λ s,
    let t := filter (λ x, x ∉ subscribed_tokens s) tokens in
    match t with
    | [] => s
    | _ => set_subscribed (subscribed_tokens s ∪ list_to_set t)
                          [WsSubscribe t; WsSetModeFull t] s
    end).

(** [unsubscribe_tokens(ws, tokens)] *)
Definition unsubscribe_tokens (tokens : list Z) : exec state unit :=
  modify (λ s,
    let t := filter (λ x, x ∈ subscribed_tokens s) tokens in
    match t with
    | [] => s
    | _ => set_subscribed (fold_left (λ sub x, sub ∖ {[x]}) t (subscribed_tokens s))
                          [WsUnsubscribe t] s
    end).

(** The set literal [{atm, atm-50, atm+50, atm-100, atm+100}]; the
    arithmetic raises [TypeError] on [None]. *)
Definition band_strikes (atm : option Z) : result (gset Z) :=
  match atm with
  | Some a => Ok ({[a; a - 50; a + 50; a - 100; a + 100]} : gset Z)
  | None => Raise TypeError
  end.

(** The innermost body of the loops of [update_option_band]. *)
Definition resolve_into (underlying : string) (st : Z) (opt : string) (exp : date)
           (new_tokens : gset Z) : exec state (gset Z) :=
  index ← gets _nfo_index_by_key;
  r ← lift (resolve_option index underlying st opt exp);
  match r with
  | Some (tok, tsym) =>
      if tok =? 0 then mret new_tokens
      else (_ ← modify (set_token_sym tok tsym); mret ({[tok]} ∪ new_tokens))
  | None => mret new_tokens
  end.

(** The three nested loops of [update_option_band], from [new_tokens = set()].
    A Python set is iterated in an order the language leaves open;
    [elements] stands for it. *)
Definition resolve_band (underlying : string) (strikes : gset Z) : exec state (gset Z) :=
  for_each (elements strikes) (λ st acc,
    for_each ["CE"; "PE"] (λ opt acc,
      for_each OPTION_EXPIRIES (λ exp acc,
        resolve_into underlying st opt exp acc) acc) acc) (∅ : gset Z).

(** [update_option_band(ws, underlying, spot_ltp)] *)
Definition update_option_band (underlying : string) (spot_ltp : pyval) : exec state unit :=
  let atm := round_to_strike spot_ltp in
  cur_atm ← gets current_atm_strike;
  if bool_decide (atm = cur_atm) then mret tt
  else
    strikes ← lift (band_strikes atm);
    new_tokens ← resolve_band underlying strikes;
    cur ← gets current_option_tokens;
    _ ← unsubscribe_tokens (elements (cur ∖ new_tokens));
    _ ← subscribe_tokens (elements (new_tokens ∖ cur));
    modify (set_band atm new_tokens).

(** *** Ticks *)
Section Callbacks.
Variable to_datetime : pyval → result timestamp.

(** The body of the [for] in [on_ticks]. *)
Definition on_tick (now : date * daytime) (t : pyval) : exec state unit :=
  tok ← lift (v ← py_get t "instrument_token" (PInt 0); py_int v);
  ltp ← lift (py_get t "last_price" PNone);
  ts ← lift (_extract_tick_ts to_datetime now t);
  tsym ← gets (λ s, default (PStr "") (token_to_sym s !! tok));
  is_spot ← gets (λ s, bool_decide (tok ∈ spot_tokens s));
  let kind : string := if is_spot : bool then "SPOT" else "OPT" in
  _ ← record_tick ts tok tsym kind ltp;
  if is_spot : bool then update_option_band "NIFTY" ltp else mret tt.

(** [on_ticks(ws, ticks)]; [clock i] is the wall-clock reading while the
    record at position [i] of the delivery is handled. *)
Fixpoint on_ticks_from (clock : nat → date * daytime) (i : nat) (ticks : list pyval)
  : exec state unit :=
  match ticks with
  | [] => mret tt
  | t :: rest => _ ← on_tick (clock i) t; on_ticks_from clock (S i) rest
  end.

Definition on_ticks (clock : nat → date * daytime) (ticks : list pyval)
  : exec state unit :=
  on_ticks_from clock 0 ticks.
End Callbacks.

(** [on_connect(ws, resp)]; [initial_option_tokens_to_subscribe] is the
    empty list throughout. *)
Definition on_connect : exec state unit :=
  spot ← gets spot_tokens;
  _ ← subscribe_tokens spot;
  subscribe_tokens [].

(** The globals as the main block leaves them before the feed connects:
    the index and the metadata come from the NFO catalog, [spot] is the list
    of spot tokens found in the NSE catalog. *)
Definition startup (tables : nfo_tables) (spot : list Z) : result state :=
  match spot with
  | [] => Raise IndexError
  | tok0 :: _ =>
      Ok (mkstate {[tok0 := PStr "NIFTY 50"]} (t_index tables) (t_token_meta tables)
                  None ∅ ∅ spot [] [])
  end.

(** *** The band as a function of the index
    The loops of [update_option_band] read only the index; these definitions
    give their outcome without the state. *)

Definition with_syms (syms : gmap Z pyval) (s : state) : state :=
  mkstate syms (_nfo_index_by_key s) (option_meta_by_token s)
          (current_atm_strike s) (current_option_tokens s) (subscribed_tokens s)
          (spot_tokens s) (ws_calls s) (csv_rows s).

(** Two states that differ at most in [token_to_sym], where the second knows
    every symbol the first knows. *)
Definition same_but_syms (s s' : state) : Prop :=
  ∃ syms, s' = with_syms syms s ∧
          ∀ tok : Z, syms !! tok = None → token_to_sym s !! tok = None.

(** The token that one lookup adds to [new_tokens]. *)
Definition add_resolved (index : gmap option_key pyval) (underlying : string)
           (st : Z) (opt : string) (exp : date) (new_tokens : gset Z) : result (gset Z) :=
  r ← resolve_option index underlying st opt exp;
  Ok (match r with
      | Some (tok, _) => if tok =? 0 then new_tokens else {[tok]} ∪ new_tokens
      | None => new_tokens
      end).

Definition band_of_index (index : gmap option_key pyval) (underlying : string)
           (strikes : gset Z) : result (gset Z) :=
  fold_result (elements strikes) (λ st acc,
    fold_result ["CE"; "PE"] (λ opt acc,
      fold_result OPTION_EXPIRIES (λ exp acc,
        add_resolved index underlying st opt exp acc) acc) acc) (∅ : gset Z).

(** Every lookup of the band around [k] returns: an instrument the index
    lists for the band has a token and a trading symbol. *)
Definition band_resolvable (index : gmap option_key pyval) (underlying : string)
           (k : Z) : bool :=
  forallb (λ st,
    forallb (λ opt,
      forallb (λ exp,
        match resolve_option index underlying st opt exp with
        | Ok _ => true
        | Raise _ => false
        end) OPTION_EXPIRIES) ["CE"; "PE"])
    (elements ({[k; k - 50; k + 50; k - 100; k + 100]} : gset Z)).

(** [tok] is an instrument of the band around [k]: the index resolves one of
    the five strikes, a call or a put, at a tracked expiry, to [tok]. *)
Definition in_band (index : gmap option_key pyval) (underlying : string)
           (k : Z) (tok : Z) : Prop :=
  ∃ (d : Z) (opt : string) (exp : date) (tsym : pyval),
    d ∈ [-2; -1; 0; 1; 2] ∧ opt ∈ ["CE"; "PE"] ∧ exp ∈ OPTION_EXPIRIES ∧
    resolve_option index underlying (k + 50 * d) opt exp = Ok (Some (tok, tsym)) ∧
    tok ≠ 0.

(** The calls that [subscribe_tokens] and [unsubscribe_tokens] make for the
    tokens they keep. *)
Definition subscribe_calls (t : list Z) : list ws_call :=
  match t with [] => [] | _ => [WsSubscribe t; WsSetModeFull t] end.
Definition unsubscribe_calls (t : list Z) : list ws_call :=
  match t with [] => [] | _ => [WsUnsubscribe t] end.

(** *** Catalog entries and written rows *)

(** What the loop of [build_nfo_index_with_expiry] reads in the catalog entry
    [inst] to make the metadata [m] of the token [tok]. *)
Definition entry_gives (today : date) (inst : pyval) (tok : Z) (m : option_meta) : Prop :=
  ∃ v_sym v_strike v_opt v_exp : pyval,
    py_get inst "tradingsymbol" PNone = Ok v_sym ∧
    py_upper (py_or v_sym (PStr "")) = Ok (m_tradingsymbol m) ∧
    py_get inst "strike" PNone = Ok v_strike ∧
    py_int v_strike = Ok (m_strike m) ∧
    py_get inst "option_type" PNone = Ok v_opt ∧
    py_upper (py_or v_opt (PStr "")) = Ok (m_opt_type m) ∧
    py_get inst "expiry" PNone = Ok v_exp ∧
    entry_expiry today (m_tradingsymbol m) v_exp = Ok (Some (m_expiry m)) ∧
    (v ← py_getitem inst "instrument_token"; py_int v) = Ok tok.

(** The row that [on_ticks] writes for the record [t]; [spot] and [meta] are
    the spot tokens and the metadata map, [syms] the trading symbols known
    when the delivery is over. *)
Definition row_of_tick (spot : list Z) (meta : gmap Z option_meta) (syms : gmap Z pyval)
           (t : pyval) (r : row) : Prop :=
  (v ← py_get t "instrument_token" (PInt 0); py_int v) = Ok (r_instrument_token r) ∧
  py_get t "last_price" PNone = Ok (r_last_price r) ∧
  r_kind r = (if bool_decide (r_instrument_token r ∈ spot) then "SPOT" else "OPT") ∧
  (syms !! r_instrument_token r = None → r_tradingsymbol r = PStr "") ∧
  (r_instrument_token r ∈ spot ∨ meta !! r_instrument_token r = None →
   r_expiry r = "" ∧ r_strike r = PStr "" ∧ r_option_type r = "").

(** *** Sample data *)

Definition sample_entry (tok : Z) (tsym : string) (strike : pyval) (opt : string)
           (exp : date) : pyval :=
  PDict [("instrument_token", PInt tok); ("tradingsymbol", PStr tsym);
         ("name", PStr "NIFTY"); ("strike", strike); ("option_type", PStr opt);
         ("expiry", PDate exp)].

(** A small NFO catalog: calls of five strikes expiring on 2026-01-20, and
    two puts expiring on 2026-01-27, one listed with a lower-case option type
    and one with a strike that is not a whole number. *)
Definition sample_catalog : list pyval :=
  [sample_entry 1 "NIFTY20JAN17400CE" (PFloat 17400) "CE" (mkdate 2026 1 20);
   sample_entry 2 "NIFTY20JAN17450CE" (PFloat 17450) "CE" (mkdate 2026 1 20);
   sample_entry 3 "NIFTY20JAN17500CE" (PFloat 17500) "CE" (mkdate 2026 1 20);
   sample_entry 4 "NIFTY20JAN17550CE" (PFloat 17550) "CE" (mkdate 2026 1 20);
   sample_entry 5 "NIFTY20JAN17600CE" (PFloat 17600) "CE" (mkdate 2026 1 20);
   sample_entry 6 "NIFTY27JAN17650PE" (PInt 17650) "pe" (mkdate 2026 1 27);
   sample_entry 7 "NIFTY27JAN17500PE" (PFloat 17500.5) "PE" (mkdate 2026 1 27)].

Definition sample_today : date := mkdate 2026 1 5.
Definition SPOT_TOKEN : Z := 256265.

Definition sample_tables : nfo_tables :=
  match build_nfo_index_with_expiry sample_today sample_catalog with
  | Ok tables => tables
  | Raise _ => mktables ∅ ∅ ∅
  end.

(** The recorder once the feed has connected, before any tick. *)
Definition sample_state : state :=
  match startup sample_tables [SPOT_TOKEN] with
  | Ok s => (on_connect s).2
  | Raise _ => mkstate ∅ ∅ ∅ None ∅ ∅ [] [] []
  end.

(** A spot tick and an option tick as the feed delivers them, without a
    timestamp field. *)
Definition spot_tick (price : pyval) : pyval :=
  PDict [("instrument_token", PInt SPOT_TOKEN); ("last_price", price)].
Definition option_tick (tok : Z) (price : pyval) : pyval :=
  PDict [("instrument_token", PInt tok); ("last_price", price)].

(** A [to_datetime] that takes the [datetime] objects of the feed and
    refuses everything else. *)
Definition datetime_only (v : pyval) : result timestamp :=
  match v with
  | PDateTime d t => Ok (Stamp d t)
  | _ => Raise ValueError
  end.

Definition sample_clock (i : nat) : date * daytime :=
  (mkdate 2026 1 5, mktime 9 15 (Z.of_nat i) 0).

(** A spot tick that carries no [last_price]. *)
Definition priceless_spot_tick : pyval := PDict [("instrument_token", PInt SPOT_TOKEN)].

(** A record whose instrument token is [None]. *)
Definition tokenless_tick : pyval :=
  PDict [("instrument_token", PNone); ("last_price", PFloat 17482)].

Definition sample_stamp : timestamp := Stamp (mkdate 2026 1 5) (mktime 9 15 1 123456).

(** *** The main block and the callbacks of a session *)

Definition END_TIME : daytime := mktime 15 30 0 0.

(** The test of the main loop; [now] is [datetime.now(IST).time()]. *)
Definition keeps_running (now : daytime) : bool := time_le now END_TIME.

(** The list comprehension of the main block over the NSE catalog:
    [int(i["instrument_token"])] for the entries with
    [i["tradingsymbol"] == "NIFTY 50"]. *)
Fixpoint find_spot_tokens (insts : list pyval) : result (list Z) :=
  match insts with
  | [] => Ok []
  | i :: rest =>
      v ← py_getitem i "tradingsymbol";
      if py_eq v (PStr "NIFTY 50") then
        tok ← (v ← py_getitem i "instrument_token"; py_int v);
        toks ← find_spot_tokens rest;
        Ok (tok :: toks)
      else find_spot_tokens rest
  end.

(** The main block up to [ticker.connect]: both catalogs are read and the
    globals set. *)
Definition main_startup (today : date) (nfo nse : list pyval) : result state :=
  tables ← build_nfo_index_with_expiry today nfo;
  spot ← find_spot_tokens nse;
  startup tables spot.

(** The tokens a call carries, and the set the feed holds after a run of
    calls. *)
Definition call_tokens (c : ws_call) : list Z :=
  match c with
  | WsSubscribe t | WsSetModeFull t | WsUnsubscribe t => t
  end.
Definition feed_after (calls : list ws_call) : gset Z :=
  fold_left (λ acc c,
    match c with
    | WsSubscribe t => acc ∪ list_to_set t
    | WsUnsubscribe t => acc ∖ list_to_set t
    | WsSetModeFull _ => acc
    end) calls ∅.

(** The feed calls back: once connected, and with each delivery of ticks. *)
Inductive callback :=
| Connect
| Deliver (clock : nat → date * daytime) (ticks : list pyval).

Section Session.
Variable to_datetime : pyval → result timestamp.

(** The globals after a callback, whether it returned or raised. *)
Definition handle (s : state) (c : callback) : state :=
  match c with
  | Connect => (on_connect s).2
  | Deliver clock ticks => (on_ticks to_datetime clock ticks s).2
  end.

Definition session (cs : list callback) (s : state) : state := fold_left handle cs s.
End Session.

(** The catalog entry [inst] passes the filter of the loop of
    [build_nfo_index_with_expiry] with the key [(und, k, opt, exp)], the
    token [tok] and the trading symbol [ts]. *)
Definition entry_accepted (today : date) (inst : pyval)
           (und : string) (k : Z) (opt : string) (exp : date) (tok : Z) (ts : string) : Prop :=
  entry_gives today inst tok (mkmeta exp k opt ts) ∧
  (v ← py_get inst "name" PNone; py_upper (py_or v (PStr ""))) = Ok und ∧
  und ≠ "" ∧ k ≠ 0 ∧ opt ≠ "".

(** The invariant of the loop: every entry of the index and of the metadata
    was put there for an accepted catalog entry already seen, and the token
    of every index entry has metadata. *)
Definition tables_from (today : date) (seen : list pyval) (acc : nfo_tables) : Prop :=
  (∀ und k opt exp inst,
     t_index acc !! (und, k, opt, exp) = Some inst →
     inst ∈ seen ∧ ∃ tok ts, entry_accepted today inst und k opt exp tok ts
                             ∧ is_Some (t_token_meta acc !! tok)) ∧
  (∀ tok m,
     t_token_meta acc !! tok = Some m →
     ∃ inst und, inst ∈ seen ∧
                 entry_accepted today inst und (m_strike m) (m_opt_type m) (m_expiry m)
                                tok (m_tradingsymbol m)) ∧
  (∀ inst und k opt exp tok ts,
     inst ∈ seen → entry_accepted today inst und k opt exp tok ts →
     is_Some (t_index acc !! (und, k, opt, exp)) ∧ is_Some (t_token_meta acc !! tok)).

(** The feed replays a run of calls from the token set [feed]: [None]
    when a call carries no token, subscribes a token the feed holds, or
    unsubscribes or sets the mode of a token it does not hold. *)
Fixpoint replay (feed : gset Z) (calls : list ws_call) : option (gset Z) :=
  match calls with
  | [] => Some feed
  | WsSubscribe t :: rest =>
      if bool_decide (t ≠ [] ∧ Forall (λ x, x ∉ feed) t)
      then replay (feed ∪ list_to_set t) rest else None
  | WsSetModeFull t :: rest =>
      if bool_decide (t ≠ [] ∧ Forall (λ x, x ∈ feed) t)
      then replay feed rest else None
  | WsUnsubscribe t :: rest =>
      if bool_decide (t ≠ [] ∧ Forall (λ x, x ∈ feed) t)
      then replay (feed ∖ list_to_set t) rest else None
  end.

(** From [s] to [s'] the recorder made calls that the feed replays from the
    active set of [s] to the active set of [s']. *)
Definition feed_follows (s s' : state) : Prop :=
  ∃ new, ws_calls s' = ws_calls s ++ new ∧
         replay (subscribed_tokens s) new = Some (subscribed_tokens s').

(** The option band of [s] is the band around its reference strike: every
    band token is active and has a trading symbol; without a strike there
    is no band, and with one the band holds the instruments that the index
    resolves around it. *)
Definition band_tracked (s : state) : Prop :=
  current_option_tokens s ⊆ subscribed_tokens s ∧
  (∀ tok, tok ∈ current_option_tokens s → is_Some (token_to_sym s !! tok)) ∧
  match current_atm_strike s with
  | None => current_option_tokens s = ∅
  | Some k =>
      k mod 50 = 0 ∧
      ∀ tok, tok ∈ current_option_tokens s ↔ in_band (_nfo_index_by_key s) "NIFTY" k tok
  end.

(** From [s] to [s'] the catalog tables and the spot tokens are kept, rows
    are only appended and no trading symbol is forgotten. *)
Definition only_grows (s s' : state) : Prop :=
  _nfo_index_by_key s' = _nfo_index_by_key s ∧
  option_meta_by_token s' = option_meta_by_token s ∧
  spot_tokens s' = spot_tokens s ∧
  csv_rows s `prefix_of` csv_rows s' ∧
  ∀ tok : Z, is_Some (token_to_sym s !! tok) → is_Some (token_to_sym s' !! tok).

(** A small NSE catalog: the index, and an entry that spells its symbol in
    another letter case. *)
Definition sample_nse : list pyval :=
  [PDict [("instrument_token", PInt SPOT_TOKEN); ("tradingsymbol", PStr "NIFTY 50")];
   PDict [("instrument_token", PInt 260105); ("tradingsymbol", PStr "Nifty 50")]].

(** The globals before the feed connects, and a short session: the feed
    connects and delivers a spot tick and an option tick. *)
Definition sample_start : state :=
  match main_startup sample_today sample_catalog sample_nse with
  | Ok s => s
  | Raise _ => mkstate ∅ ∅ ∅ None ∅ ∅ [] [] []
  end.
Definition sample_session : list callback :=
  [Connect; Deliver sample_clock [spot_tick (PFloat 17482); option_tick 3 (PFloat 12.5)]].

End Recorder.

(** * Properties of the producer *)
Module ProducerProofs.
Import Py Producer.
Local Open Scope Z_scope.

Section DequeFacts.
Context {A : Type}.
Implicit Types (q xs batch : list A) (x : A).

Lemma drain_spec q batch : drain q batch = ([], batch ++ q).
Proof.
  revert batch; induction q as [|x q IH]; intros batch; simpl.
  - by rewrite app_nil_r.
  - by rewrite IH, <- app_assoc.
Qed.

(** An append to a deque within its bound keeps the last [cap] items. *)
Lemma deque_append_drop (cap : nat) q x :
  (length q ≤ cap)%nat →
  deque_append (Z.of_nat cap) q x = drop (length (q ++ [x]) - cap) (q ++ [x]).
Proof.
  intros Hq. unfold deque_append. rewrite length_app; simpl.
  destruct (Z.ltb_spec (Z.of_nat cap) (Z.of_nat (length q + 1))) as [Hlt|Hge].
  - replace (length q + 1 - cap)%nat with 1%nat by lia.
    by destruct (q ++ [x]).
  - by replace (length q + 1 - cap)%nat with 0%nat by lia.
Qed.

Lemma deque_append_length (cap : nat) q x :
  (length q ≤ cap)%nat → (length (deque_append (Z.of_nat cap) q x) ≤ cap)%nat.
Proof.
  intros Hq. rewrite deque_append_drop by done.
  rewrite length_drop, length_app; simpl. lia.
Qed.

Lemma deque_extend_drop (cap : nat) xs : ∀ q,
  (length q ≤ cap)%nat →
  deque_extend (Z.of_nat cap) q xs = drop (length (q ++ xs) - cap) (q ++ xs).
Proof.
  unfold deque_extend.
  induction xs as [|x xs IH]; intros q Hq; simpl.
  - rewrite app_nil_r. by replace (length q - cap)%nat with 0%nat by lia.
  - rewrite IH by by apply deque_append_length.
    rewrite deque_append_drop by done.
    rewrite (cons_middle x q xs), (app_assoc q [x] xs).
    set (l := q ++ [x]).
    assert (Hl : (length l = length q + 1)%nat) by (unfold l; rewrite length_app; simpl; lia).
    set (d := (length l - cap)%nat).
    assert (Hd : (d ≤ length l)%nat) by lia.
    rewrite <- (drop_app_le l xs d) by done.
    rewrite drop_drop. f_equal.
    rewrite length_drop, !length_app. lia.
Qed.

Lemma deque_extend_length (cap : nat) xs q :
  (length q ≤ cap)%nat → (length (deque_extend (Z.of_nat cap) q xs) ≤ cap)%nat.
Proof.
  intros Hq. rewrite deque_extend_drop by done. rewrite length_drop. lia.
Qed.
End DequeFacts.

Lemma CAP_spec : Z.of_nat CAP = QUEUE_MAXLEN.
Proof. unfold CAP. apply Z2Nat.id. by unfold QUEUE_MAXLEN. Qed.

Lemma enqueue_tick_queue t s :
  write_queue (enqueue_tick t s) = deque_append (Z.of_nat CAP) (write_queue s) t.
Proof. by rewrite CAP_spec. Qed.

Lemma drain_locked_spec s :
  drain_locked s = (write_queue s, set_queue [] false s).
Proof. unfold drain_locked. by rewrite drain_spec. Qed.

Lemma writer_cycle_queue io s :
  write_queue (writer_cycle io s) = match writer s with Running => [] | Died _ => write_queue s end.
Proof.
  unfold writer_cycle. destruct (writer s); [|done].
  rewrite drain_locked_spec. destruct (write_queue s), io; done.
Qed.

(** The bound is an invariant of every step. *)
Lemma step_bounded s ev :
  (length (write_queue s) ≤ CAP)%nat → (length (write_queue (step s ev)) ≤ CAP)%nat.
Proof.
  intros Hs. destruct ev as [t|io]; cbn [step].
  - rewrite enqueue_tick_queue. by apply deque_append_length.
  - rewrite writer_cycle_queue. destruct (writer s); simpl; lia.
Qed.

Lemma run_bounded evs : ∀ s,
  (length (write_queue s) ≤ CAP)%nat → (length (write_queue (run evs s)) ≤ CAP)%nat.
Proof.
  unfold run. induction evs as [|ev evs IH]; intros s Hs; simpl; [done|].
  apply IH. by apply step_bounded.
Qed.

Lemma run_enqueues xs : ∀ s,
  write_queue (run (map Enqueue xs) s) = deque_extend (Z.of_nat CAP) (write_queue s) xs.
Proof.
  unfold run, deque_extend.
  induction xs as [|x xs IH]; intros s; cbn [map fold_left step]; [done|].
  by rewrite IH, enqueue_tick_queue.
Qed.

Lemma run_enqueues_frame xs : ∀ s,
  out_file (run (map Enqueue xs) s) = out_file s ∧
  writer (run (map Enqueue xs) s) = writer s.
Proof.
  unfold run. induction xs as [|x xs IH]; intros s; cbn [map fold_left step]; [done|].
  destruct (IH (enqueue_tick x s)) as [-> ->]. done.
Qed.

(** Once the writer thread has died, nothing reaches the file any more. *)
Lemma dead_writer_stays_dead evs : ∀ s e,
  writer s = Died e →
  writer (run evs s) = Died e ∧ out_file (run evs s) = out_file s.
Proof.
  unfold run. induction evs as [|ev evs IH]; intros s e Hs; cbn [fold_left]; [done|].
  destruct ev as [t|io]; cbn [step].
  - destruct (IH (enqueue_tick t s) e Hs) as [-> ->]. done.
  - unfold writer_cycle. rewrite Hs. by apply IH.
Qed.

(** C1. Queue boundedness: along every run of the module the write queue
    holds at most [QUEUE_MAXLEN] records; an enqueue on a queue below
    capacity only appends, and an enqueue on a queue at capacity drops
    exactly the oldest record and appends the new one.  The same holds of a
    deque of any capacity [n + 1], and with capacity 3 the appends A, B, C, D
    leave [B; C; D], which a drain yields in that order. *)
Theorem queue_bounded_fifo_eviction :
  (∀ (evs : list event) (f0 : list qtick) (t : qtick),
     let s := run evs (initial f0) in
     Z.of_nat (length (write_queue s)) ≤ QUEUE_MAXLEN ∧
     write_queue (enqueue_tick t s) =
       (if bool_decide (Z.of_nat (length (write_queue s)) = QUEUE_MAXLEN)
        then tail (write_queue s) else write_queue s) ++ [t])
  ∧ (∀ (A : Type) (n : nat) (xs : list A) (x : A),
       let q := deque_extend (Z.of_nat (S n)) [] xs in
       (length q ≤ S n)%nat ∧
       deque_append (Z.of_nat (S n)) q x =
         (if bool_decide (length q = S n) then tail q else q) ++ [x])
  ∧ (∀ (A : Type) (a b c d : A),
       deque_extend 3 [] [a; b; c; d] = [b; c; d] ∧
       drain (deque_extend 3 [] [a; b; c; d]) [] = ([], [b; c; d])).
Proof.
  split; [|split].
  - intros evs f0 t s.
    assert (Hb : (length (write_queue s) ≤ CAP)%nat)
      by (apply run_bounded; simpl; lia).
    pose proof CAP_spec as Hc. split; [lia|].
    rewrite enqueue_tick_queue, deque_append_drop by done.
    rewrite length_app; simpl. case_bool_decide as Hfull.
    + replace (length (write_queue s) + 1 - CAP)%nat with 1%nat by lia.
      destruct (write_queue s) as [|y q] eqn:Hq; [|done].
      simpl in Hfull. unfold QUEUE_MAXLEN in Hfull. lia.
    + by replace (length (write_queue s) + 1 - CAP)%nat with 0%nat by lia.
  - intros A n xs x q.
    assert (Hb : (length q ≤ S n)%nat) by (apply deque_extend_length; simpl; lia).
    split; [done|].
    rewrite deque_append_drop by done.
    rewrite length_app; simpl. case_bool_decide as Hfull.
    + replace (length q + 1 - S n)%nat with 1%nat by lia.
      destruct q; [done|done].
    + by replace (length q + 1 - S n)%nat with 0%nat by lia.
  - intros A a b c d. split; reflexivity.
Qed.

(** C2, as stated, fails on a burst longer than the queue: of
    [QUEUE_MAXLEN + 1] records enqueued between two drains the batch holds
    only [QUEUE_MAXLEN]. *)
Lemma drain_misses_evicted_records :
  let s := run (map Enqueue overflow_burst) (initial []) in
  (drain_locked s).1 ≠ overflow_burst ∧
  Z.of_nat (length (drain_locked s).1) < Z.of_nat (length overflow_burst).
Proof.
  intros s.
  assert (Hlen : length overflow_burst = Z.to_nat (QUEUE_MAXLEN + 1)).
  { unfold overflow_burst. by rewrite length_map, length_seq. }
  assert (Hb : (length (write_queue s) ≤ CAP)%nat)
    by (apply run_bounded; simpl; lia).
  rewrite drain_locked_spec; cbn [fst].
  pose proof CAP_spec as Hc.
  assert (Hlt : Z.of_nat (length (write_queue s)) < Z.of_nat (length overflow_burst)).
  { rewrite Hlen. unfold QUEUE_MAXLEN in *. lia. }
  split; [|done].
  intros Heq. rewrite Heq in Hlt. lia.
Qed.

(** C2, amended. Drain completeness: when the records [xs] are enqueued
    after a drain has left the queue empty, the next drain empties the queue
    again and its batch is [xs] without the records that overflow evicted: the
    last [QUEUE_MAXLEN] of them in enqueue order, hence all of [xs] when there
    are at most [QUEUE_MAXLEN]; a writer pass whose write succeeds appends
    exactly that batch to the file. *)
Theorem drain_hands_over_surviving_records (s0 : pstate) (xs : list qtick) :
  write_queue s0 = [] →
  writer s0 = Running →
  let s := run (map Enqueue xs) s0 in
  let kept := drop (length xs - Z.to_nat QUEUE_MAXLEN) xs in
  drain_locked s = (kept, set_queue [] false s) ∧
  (if bool_decide (Z.of_nat (length xs) ≤ QUEUE_MAXLEN) then kept = xs
   else Z.of_nat (length kept) = QUEUE_MAXLEN) ∧
  write_queue (writer_cycle IoOk s) = [] ∧
  out_file (writer_cycle IoOk s) = out_file s0 ++ kept.
Proof.
  intros Hq Hw s kept.
  assert (Hs : write_queue s = kept).
  { unfold s. rewrite run_enqueues, Hq, deque_extend_drop by (simpl; lia). done. }
  destruct (run_enqueues_frame xs s0) as [Hf Hr]. fold s in Hf, Hr.
  pose proof CAP_spec as Hc. fold CAP in kept.
  split; [by rewrite drain_locked_spec, Hs|].
  split; [|split].
  - case_bool_decide as Hle.
    + unfold kept. replace (length xs - CAP)%nat with 0%nat by lia. done.
    + unfold kept. rewrite length_drop. lia.
  - rewrite writer_cycle_queue, Hr, Hw. done.
  - unfold writer_cycle. rewrite Hr, Hw, drain_locked_spec, Hs.
    destruct kept; simpl; rewrite Hf, ?app_nil_r; done.
Qed.

(** Witness for C2 amended: two records enqueued on the fresh module. *)
Lemma drain_hands_over_surviving_records_witness :
  let xs := [numbered_tick 0; numbered_tick 1] in
  let s := run (map Enqueue xs) (initial []) in
  let kept := drop (length xs - Z.to_nat QUEUE_MAXLEN) xs in
  drain_locked s = (kept, set_queue [] false s) ∧
  (if bool_decide (Z.of_nat (length xs) ≤ QUEUE_MAXLEN) then kept = xs
   else Z.of_nat (length kept) = QUEUE_MAXLEN) ∧
  write_queue (writer_cycle IoOk s) = [] ∧
  out_file (writer_cycle IoOk s) = out_file (initial []) ++ kept.
Proof.
  apply (drain_hands_over_surviving_records (initial []) [numbered_tick 0; numbered_tick 1]);
    reflexivity.
Defined.

(** A pass that meets an I/O error with a batch in hand ends the thread. *)
Lemma failed_write_ends_writer n s :
  writer s = Running → write_queue s ≠ [] →
  writer (writer_cycle (IoError n) s) = Died OSError ∧
  write_queue (writer_cycle (IoError n) s) = [].
Proof.
  intros Hw Hq. unfold writer_cycle. rewrite Hw, drain_locked_spec.
  by destruct (write_queue s).
Qed.

(** C5. A failed batch write ends the writer thread: with one record queued,
    a pass whose [open] or [write] raises leaves the thread dead with the
    batch already taken off the queue, and whatever is enqueued or attempted
    afterwards, nothing more reaches the file. *)
Theorem writer_dies_on_failed_write (f0 : list qtick) (a : qtick) (n : nat)
        (evs : list event) :
  let s := enqueue_tick a (initial f0) in
  let s1 := writer_cycle (IoError n) s in
  writer s = Running ∧
  writer s1 = Died OSError ∧
  write_queue s1 = [] ∧
  out_file s1 = f0 ++ take n [a] ∧
  writer (run evs s1) = Died OSError ∧
  out_file (run evs s1) = out_file s1.
Proof.
  intros s s1.
  assert (H1 : writer s1 = Died OSError) by reflexivity.
  destruct (dead_writer_stays_dead evs s1 OSError H1) as [Hw Hf].
  repeat split; try reflexivity; done.
Qed.

Section CallbackFacts.
Variable py_str : pyval → string.

Lemma py_get_dict items k : py_get (PDict items) k PNone = Ok (field items k).
Proof. done. Qed.

(** A record that is not a dict has no [get]: the lookup raises. *)
Lemma normalize_not_dict now t :
  (∀ items, t ≠ PDict items) → normalize py_str now t = Raise AttributeError.
Proof. intros Ht. destruct t; try done. by destruct (Ht items). Qed.

(** Every dict is normalized, whatever it holds. *)
Lemma normalize_dict now items :
  ∃ ts, _extract_ts_from_tick py_str now (PDict items) = Ok ts ∧
        normalize py_str now (PDict items) =
          Ok (mkqtick (field items "instrument_token") (field items "tradingsymbol")
                      (field items "last_price") ts).
Proof.
  assert (H : ∃ ts, _extract_ts_from_tick py_str now (PDict items) = Ok ts).
  { unfold _extract_ts_from_tick, TS_KEYS. cbn.
    repeat (match goal with |- context [truthy ?v] => destruct (truthy v) end;
            [by eexists|]).
    by eexists. }
  destruct H as [ts Hts]. exists ts. split; [done|].
  unfold normalize. rewrite !py_get_dict. unfold mbind, result_bind.
  by rewrite Hts.
Qed.

(** The producer's [on_ticks] handles every record of a delivery: the ones
    that normalize are enqueued in order, the others are logged. *)
Lemma on_ticks_handles_every_record clock ticks : ∀ i s,
  let s' := on_ticks_from py_str clock i ticks s in
  write_queue s' =
    deque_extend QUEUE_MAXLEN (write_queue s) (accepted py_str clock i ticks) ∧
  dbg_out s' = dbg_out s ++ rejected py_str clock i ticks ∧
  out_file s' = out_file s ∧ writer s' = writer s.
Proof.
  unfold accepted, rejected.
  induction ticks as [|t ticks IH]; intros i s; cbn [on_ticks_from outcomes].
  - cbn. by rewrite app_nil_r.
  - destruct (IH (S i) (on_tick py_str (clock i) t s)) as (Hq & Hd & Hf & Hw).
    cbn zeta in *. rewrite Hq, Hd, Hf, Hw. clear IH Hq Hd Hf Hw.
    cbn [omap list_omap].
    unfold on_tick. destruct (normalize py_str (clock i) t) as [r|e]; cbn.
    + done.
    + by rewrite <- app_assoc.
Qed.
End CallbackFacts.

End ProducerProofs.

(** * Properties of the recorder *)
Module RecorderProofs.
Import Py Recorder.
Local Open Scope Z_scope.

(** ** Rounding and parsing on concrete values *)

(** Spot at 17482 and at 17498 round to 17500, spot at 17526 to 17550. *)
Example round_to_strike_scenario :
  round_to_strike (PFloat 17482) = Some 17500 ∧
  round_to_strike (PFloat 17498) = Some 17500 ∧
  round_to_strike (PFloat 17526) = Some 17550 ∧
  round_to_strike (PInt 17482) = Some 17500.
Proof. vm_compute. repeat split; reflexivity. Qed.

(** [round] sends a tie to the even neighbour: 17525 / 50 = 350.5 and
    17475 / 50 = 349.5 both round to 350. *)
Example round_to_strike_ties :
  round_to_strike (PFloat 17525) = Some 17500 ∧
  round_to_strike (PFloat 17475) = Some 17500.
Proof. vm_compute. split; reflexivity. Qed.

(** No strike for a missing price, a string, a NaN or an infinity. *)
Example round_to_strike_none :
  round_to_strike PNone = None ∧
  round_to_strike (PStr "17482") = None ∧
  round_to_strike (PFloat nan) = None ∧
  round_to_strike (PFloat infinity) = None.
Proof. vm_compute. repeat split; reflexivity. Qed.

Example int_examples :
  py_int (PFloat 17500.5) = Ok 17500 ∧
  py_int (PFloat (-3.5)) = Ok (-3) ∧
  py_int (PStr " 1_000 ") = Ok 1000 ∧
  py_int (PStr "12__3") = Raise ValueError ∧
  py_int PNone = Raise TypeError.
Proof. vm_compute. repeat split; reflexivity. Qed.

Example expiry_examples :
  strptime_ymd "2026-01-20" = Ok (mkdate 2026 1 20) ∧
  strptime_ymd "2026-02-30" = Raise ValueError ∧
  _parse_expiry_from_tradingsymbol sample_today "NIFTY20JAN17500CE"
    = Ok (Some (mkdate 2026 1 20)) ∧
  _parse_expiry_from_tradingsymbol sample_today "NIFTY3JAN17500CE"
    = Ok (Some (mkdate 2027 1 3)) ∧
  _parse_expiry_from_tradingsymbol sample_today "NIFTY26JANFUT" = Ok None.
Proof. vm_compute. repeat split; reflexivity. Qed.

(** The sample catalog builds, and the recorder connects with the spot
    token subscribed. *)
Example sample_state_connected :
  build_nfo_index_with_expiry sample_today sample_catalog = Ok sample_tables ∧
  size (t_token_meta sample_tables) = 7%nat ∧
  ws_calls sample_state = [WsSubscribe [SPOT_TOKEN]; WsSetModeFull [SPOT_TOKEN]] ∧
  elements (subscribed_tokens sample_state) = [SPOT_TOKEN].
Proof. vm_compute. repeat split; reflexivity. Qed.

(** ** Subscriptions *)

Lemma set_subscribed_same s : set_subscribed (subscribed_tokens s) [] s = s.
Proof. destruct s; unfold set_subscribed; simpl. by rewrite app_nil_r. Qed.

Lemma discard_all (t : list Z) : ∀ sub : gset Z,
  fold_left (λ sub x, sub ∖ {[x]}) t sub = sub ∖ list_to_set t.
Proof.
  induction t as [|x t IH]; intros sub; simpl.
  - by rewrite difference_empty_L.
  - by rewrite IH, difference_difference_l_L.
Qed.

(** [unsubscribe_tokens] returns, removes the tokens from the active set and
    reports to the feed the ones that were active. *)
Lemma unsubscribe_tokens_spec (tokens : list Z) (s : state) :
  unsubscribe_tokens tokens s =
    (Ok tt, set_subscribed (subscribed_tokens s ∖ list_to_set tokens)
              (unsubscribe_calls (filter (λ x, x ∈ subscribed_tokens s) tokens)) s).
Proof.
  unfold unsubscribe_tokens, modify. f_equal.
  set (t := filter _ tokens).
  assert (Hsub : subscribed_tokens s ∖ list_to_set t = subscribed_tokens s ∖ list_to_set tokens).
  { apply set_eq. intros x. unfold t.
    rewrite !elem_of_difference, !elem_of_list_to_set, list_elem_of_filter. tauto. }
  clearbody t. destruct t as [|y t'].
  - rewrite <- Hsub. simpl. rewrite difference_empty_L. by rewrite set_subscribed_same.
  - rewrite discard_all, Hsub. done.
Qed.

(** [subscribe_tokens] returns, adds the tokens to the active set and
    reports to the feed the ones that were not active. *)
Lemma subscribe_tokens_spec (tokens : list Z) (s : state) :
  subscribe_tokens tokens s =
    (Ok tt, set_subscribed (subscribed_tokens s ∪ list_to_set tokens)
              (subscribe_calls (filter (λ x, x ∉ subscribed_tokens s) tokens)) s).
Proof.
  unfold subscribe_tokens, modify. f_equal.
  set (t := filter _ tokens).
  assert (Hsub : subscribed_tokens s ∪ list_to_set t = subscribed_tokens s ∪ list_to_set tokens).
  { apply set_eq. intros x. unfold t.
    rewrite !elem_of_union, !elem_of_list_to_set, list_elem_of_filter.
    destruct (decide (x ∈ subscribed_tokens s)); tauto. }
  clearbody t. destruct t as [|y t'].
  - rewrite <- Hsub. simpl. rewrite union_empty_r_L. by rewrite set_subscribed_same.
  - by rewrite Hsub.
Qed.

Lemma filter_all {A} (P : A → Prop) `{∀ x, Decision (P x)} (l : list A) :
  (∀ x, x ∈ l → P x) → filter P l = l.
Proof.
  induction l as [|x l IH]; intros Hl; [done|].
  rewrite filter_cons_True by (apply Hl; left).
  f_equal. apply IH. intros y Hy. apply Hl. by right.
Qed.

(** C3. Idempotent subscription diff: from any active set [A] and for any
    desired set [D], [unsubscribe_tokens(A - D)] followed by
    [subscribe_tokens(D - A)] leaves the active set equal to [D].  The feed
    receives one unsubscribe call carrying exactly [A - D] unless that set is
    empty, and one subscribe call carrying exactly [D - A] unless that set is
    empty; so nothing is issued when [A = D]. *)
Theorem subscription_diff_reaches_desired_set :
  (∀ (s : state) (D : gset Z),
     let A := subscribed_tokens s in
     let s1 := (unsubscribe_tokens (elements (A ∖ D)) s).2 in
     let s2 := (subscribe_tokens (elements (D ∖ A)) s1).2 in
     subscribed_tokens s2 = D ∧
     ws_calls s2 = ws_calls s ++ unsubscribe_calls (elements (A ∖ D))
                              ++ subscribe_calls (elements (D ∖ A)))
  ∧ (∀ (s : state),
       let A := subscribed_tokens s in
       let s1 := (unsubscribe_tokens (elements (A ∖ A)) s).2 in
       let s2 := (subscribe_tokens (elements (A ∖ A)) s1).2 in
       s2 = s).
Proof.
  assert (Hgen : ∀ (s : state) (D : gset Z),
     let A := subscribed_tokens s in
     let s1 := (unsubscribe_tokens (elements (A ∖ D)) s).2 in
     let s2 := (subscribe_tokens (elements (D ∖ A)) s1).2 in
     s2 = set_subscribed D (unsubscribe_calls (elements (A ∖ D))
                            ++ subscribe_calls (elements (D ∖ A))) s).
  { intros s D A s1 s2. unfold s2, s1.
    rewrite unsubscribe_tokens_spec; cbn [snd].
    rewrite subscribe_tokens_spec; cbn [snd subscribed_tokens set_subscribed].
    rewrite list_to_set_elements_L.
    rewrite (filter_all (λ x, x ∈ subscribed_tokens s))
      by (intros x Hx; apply elem_of_elements, elem_of_difference in Hx; tauto).
    rewrite (filter_all (λ x, x ∉ _))
      by (intros x Hx; apply elem_of_elements, elem_of_difference in Hx;
          rewrite elem_of_difference; tauto).
    unfold set_subscribed; cbn. rewrite <- app_assoc. f_equal.
    rewrite list_to_set_elements_L. fold A.
    apply set_eq. intros x.
    rewrite elem_of_union, !elem_of_difference.
    destruct (decide (x ∈ A)), (decide (x ∈ D)); tauto. }
  split.
  - intros s D A s1 s2. unfold s2, s1, A. rewrite Hgen. done.
  - intros s A s1 s2. unfold s2, s1, A. rewrite Hgen.
    rewrite difference_diag_L, elements_empty. cbn.
    apply set_subscribed_same.
Qed.

(** In the recorder the spot tokens [P] stay active beside the option
    tokens: the same two calls, made on the option tokens, leave [P ∪ D]. *)
Lemma reband_keeps_spot_tokens (s : state) (P D : gset Z) :
  let cur := current_option_tokens s in
  subscribed_tokens s = P ∪ cur →
  P ## cur →
  let s1 := (unsubscribe_tokens (elements (cur ∖ D)) s).2 in
  let s2 := (subscribe_tokens (elements (D ∖ cur)) s1).2 in
  subscribed_tokens s2 = P ∪ D.
Proof.
  intros cur Hsub Hdisj s1 s2. unfold s2, s1.
  rewrite unsubscribe_tokens_spec; cbn [snd].
  rewrite subscribe_tokens_spec; cbn [snd subscribed_tokens set_subscribed].
  rewrite !list_to_set_elements_L, Hsub.
  apply set_eq. intros x.
  rewrite !elem_of_union, !elem_of_difference, elem_of_union.
  specialize (Hdisj x).
  destruct (decide (x ∈ P)), (decide (x ∈ cur)), (decide (x ∈ D)); tauto.
Qed.

(** ** The band loops *)

Lemma same_but_syms_refl s : same_but_syms s s.
Proof. exists (token_to_sym s). by destruct s. Qed.

Lemma same_but_syms_trans s1 s2 s3 :
  same_but_syms s1 s2 → same_but_syms s2 s3 → same_but_syms s1 s3.
Proof.
  intros (m & -> & Hm) (m' & -> & Hm'). exists m'. split; [done|].
  intros tok Htok. apply Hm, Hm', Htok.
Qed.

(** A loop whose body computes its result without the state, and moves the
    state along a preorder, does the same as a whole. *)
Lemma for_each_fold_result {S A B} (R : S → S → Prop)
      (R_refl : ∀ s, R s s) (R_trans : ∀ s1 s2 s3, R s1 s2 → R s2 s3 → R s1 s3)
      (s0 : S) (body : A → B → exec S B) (pbody : A → B → result B) (l : list A) :
  (∀ x acc s, R s0 s → ∃ s', body x acc s = (pbody x acc, s') ∧ R s s') →
  ∀ acc s, R s0 s → ∃ s', for_each l body acc s = (fold_result l pbody acc, s') ∧ R s s'.
Proof.
  intros Hbody. induction l as [|x l IH]; intros acc s Hs; cbn [for_each fold_result].
  - exists s. split; [done|apply R_refl].
  - unfold mbind, exec_bind.
    destruct (Hbody x acc s Hs) as (s1 & -> & Hs1).
    destruct (pbody x acc) as [acc'|e].
    + destruct (IH acc' s1 (R_trans _ _ _ Hs Hs1)) as (s2 & -> & Hs2).
      exists s2. split; [done|]. by eapply R_trans.
    + by exists s1.
Qed.

Lemma resolve_into_spec und st opt exp acc s0 s :
  same_but_syms s0 s →
  ∃ s', resolve_into und st opt exp acc s
        = (add_resolved (_nfo_index_by_key s0) und st opt exp acc, s')
        ∧ same_but_syms s s'.
Proof.
  intros (m & -> & Hm).
  unfold resolve_into, add_resolved, mbind, exec_bind, result_bind, gets, lift, modify,
    mret, exec_ret.
  cbn [_nfo_index_by_key with_syms].
  destruct (resolve_option _ und st opt exp) as [[[tok tsym]|]|e].
  - destruct (tok =? 0).
    + eexists. split; [done|apply same_but_syms_refl].
    + eexists. split; [done|]. eexists. split; [done|].
      cbn [token_to_sym with_syms]. intros t Ht.
      by apply lookup_insert_None in Ht as [Ht _].
  - eexists. split; [done|apply same_but_syms_refl].
  - eexists. split; [done|apply same_but_syms_refl].
Qed.

(** The loops of [update_option_band] compute [band_of_index] and change
    nothing but [token_to_sym], which they only extend. *)
Lemma resolve_band_spec und strikes s :
  ∃ syms, resolve_band und strikes s
          = (band_of_index (_nfo_index_by_key s) und strikes, with_syms syms s)
          ∧ ∀ tok : Z, syms !! tok = None → token_to_sym s !! tok = None.
Proof.
  unfold resolve_band, band_of_index.
  destruct (for_each_fold_result same_but_syms
              same_but_syms_refl same_but_syms_trans s
              (λ st acc, for_each ["CE"; "PE"] (λ opt acc,
                 for_each OPTION_EXPIRIES (λ exp acc, resolve_into und st opt exp acc) acc) acc)
              (λ st acc, fold_result ["CE"; "PE"] (λ opt acc,
                 fold_result OPTION_EXPIRIES (λ exp acc,
                   add_resolved (_nfo_index_by_key s) und st opt exp acc) acc) acc)
              (elements strikes)) with (∅ : gset Z) s as (s' & Heq & (m & -> & Hm)).
  - intros st acc s1 Hs1.
    apply (for_each_fold_result same_but_syms
             same_but_syms_refl same_but_syms_trans s); [|done].
    intros opt acc1 s2 Hs2.
    apply (for_each_fold_result same_but_syms
             same_but_syms_refl same_but_syms_trans s); [|done].
    intros exp acc2 s3 Hs3. by apply resolve_into_spec.
  - apply same_but_syms_refl.
  - by exists m.
Qed.

(** ** [update_option_band], case by case *)

Lemma update_same_strike und p s :
  round_to_strike p = current_atm_strike s → update_option_band und p s = (Ok tt, s).
Proof.
  intros H. unfold update_option_band, mbind, exec_bind, gets.
  by rewrite bool_decide_eq_true_2.
Qed.

Lemma update_no_strike und p s :
  round_to_strike p = None → current_atm_strike s ≠ None →
  update_option_band und p s = (Raise TypeError, s).
Proof.
  intros H Hs. unfold update_option_band, mbind, exec_bind, gets, lift.
  rewrite bool_decide_eq_false_2 by congruence. by rewrite H.
Qed.

Lemma update_new_strike und p k s :
  round_to_strike p = Some k → current_atm_strike s ≠ Some k →
  ∃ syms,
    (∀ tok : Z, syms !! tok = None → token_to_sym s !! tok = None) ∧
    let s1 := with_syms syms s in
    let cur := current_option_tokens s in
    update_option_band und p s =
      match band_of_index (_nfo_index_by_key s) und {[k; k - 50; k + 50; k - 100; k + 100]} with
      | Raise e => (Raise e, s1)
      | Ok new =>
          (Ok tt,
           set_band (Some k) new
             (subscribe_tokens (elements (new ∖ cur))
                (unsubscribe_tokens (elements (cur ∖ new)) s1).2).2)
      end.
Proof.
  intros H Hs.
  destruct (resolve_band_spec und {[k; k - 50; k + 50; k - 100; k + 100]} s)
    as (m & Hloop & Hm).
  exists m. split; [done|]. cbn zeta.
  unfold update_option_band, mbind, exec_bind, gets, lift.
  rewrite bool_decide_eq_false_2 by congruence. rewrite H. cbn [band_strikes].
  rewrite Hloop.
  destruct (band_of_index _ und _) as [new|e]; [|done].
  cbn [current_option_tokens with_syms].
  rewrite unsubscribe_tokens_spec. cbn [fst snd].
  rewrite subscribe_tokens_spec. cbn [fst snd]. done.
Qed.

(** Whatever its outcome, [update_option_band] writes no row, keeps the spot
    tokens, the index and the metadata, and forgets no symbol. *)
Lemma update_option_band_frame und p s :
  let s' := (update_option_band und p s).2 in
  csv_rows s' = csv_rows s ∧ spot_tokens s' = spot_tokens s ∧
  option_meta_by_token s' = option_meta_by_token s ∧
  _nfo_index_by_key s' = _nfo_index_by_key s ∧
  ∀ tok : Z, token_to_sym s' !! tok = None → token_to_sym s !! tok = None.
Proof.
  cbn zeta.
  destruct (decide (round_to_strike p = current_atm_strike s)) as [Hsame|Hnew].
  - by rewrite (update_same_strike und p s Hsame).
  - destruct (round_to_strike p) as [k|] eqn:Hk.
    + destruct (update_new_strike und p k s Hk) as (m & Hm & H1); [congruence|].
      cbn zeta in H1. rewrite H1. clear H1.
      destruct (band_of_index _ und _) as [new|e]; [|done].
      rewrite unsubscribe_tokens_spec. cbn [fst snd].
      rewrite subscribe_tokens_spec. cbn [fst snd]. done.
    + by rewrite (update_no_strike und p s Hk) by congruence.
Qed.

(** C4. Band stability: when two consecutive spot ticks round to the same
    strike, handling the second one issues no subscribe, set-mode or
    unsubscribe call and leaves the reference strike, the option token set
    and the active set as the first one left them; when the first one
    returned, the second leaves the whole state untouched. *)
Theorem band_stable_on_same_strike (und : string) (p1 p2 : pyval) (s : state) :
  round_to_strike p1 = round_to_strike p2 →
  let s1 := (update_option_band und p1 s).2 in
  let s2 := (update_option_band und p2 s1).2 in
  ws_calls s2 = ws_calls s1 ∧
  current_atm_strike s2 = current_atm_strike s1 ∧
  current_option_tokens s2 = current_option_tokens s1 ∧
  subscribed_tokens s2 = subscribed_tokens s1 ∧
  match (update_option_band und p1 s).1 with
  | Ok _ => update_option_band und p2 s1 = (Ok tt, s1)
  | Raise _ => True
  end.
Proof.
  intros Heq. cbn zeta.
  destruct (decide (round_to_strike p1 = current_atm_strike s)) as [Hsame|Hnew].
  - rewrite (update_same_strike und p1 s Hsame). cbn [fst snd].
    rewrite (update_same_strike und p2 s) by congruence. done.
  - destruct (round_to_strike p1) as [k|] eqn:Hk.
    + destruct (update_new_strike und p1 k s Hk) as (m & _ & H1); [congruence|].
      cbn zeta in H1. rewrite H1. clear H1.
      destruct (band_of_index _ und _) as [new|e] eqn:Hband; cbn [fst snd].
      * rewrite update_same_strike by (by rewrite <- Heq). done.
      * destruct (update_new_strike und p2 k (with_syms m s)) as (m' & _ & H2);
          [congruence|cbn; congruence|].
        cbn zeta in H2. rewrite H2. clear H2.
        cbn [_nfo_index_by_key with_syms]. rewrite Hband. done.
    + rewrite (update_no_strike und p1 s Hk) by congruence. cbn [fst snd].
      rewrite (update_no_strike und p2 s) by congruence. done.
Qed.

(** Witness for C4: spot at 17482 and then at 17498, both rounding to 17500. *)
Lemma band_stable_on_same_strike_witness :
  round_to_strike (PFloat 17482) = round_to_strike (PFloat 17498) ∧
  let s1 := (update_option_band "NIFTY" (PFloat 17482) sample_state).2 in
  let s2 := (update_option_band "NIFTY" (PFloat 17498) s1).2 in
  ws_calls s2 = ws_calls s1 ∧
  current_atm_strike s2 = current_atm_strike s1 ∧
  current_option_tokens s2 = current_option_tokens s1 ∧
  subscribed_tokens s2 = subscribed_tokens s1 ∧
  match (update_option_band "NIFTY" (PFloat 17482) sample_state).1 with
  | Ok _ => update_option_band "NIFTY" (PFloat 17498) s1 = (Ok tt, s1)
  | Raise _ => True
  end.
Proof.
  split; [vm_compute; reflexivity|].
  apply (band_stable_on_same_strike "NIFTY" (PFloat 17482) (PFloat 17498) sample_state).
  vm_compute; reflexivity.
Defined.

(** ** What the band holds *)

Lemma fold_result_ok {A B} (l : list A) (pbody : A → B → result B) :
  (∀ x acc, x ∈ l → ∃ acc', pbody x acc = Ok acc') →
  ∀ acc, ∃ acc', fold_result l pbody acc = Ok acc'.
Proof.
  induction l as [|x l IH]; intros Hbody acc; cbn [fold_result].
  - by exists acc.
  - destruct (Hbody x acc) as [acc1 ->]; [left|].
    apply IH. intros y acc2 Hy. apply Hbody. by right.
Qed.

(** A loop that only adds tokens, each for a reason [C x], collects exactly
    the tokens that some item gives a reason for. *)
Lemma fold_result_mem {A} (C : A → Z → Prop) (l : list A)
      (pbody : A → gset Z → result (gset Z)) : ∀ acc acc',
  fold_result l pbody acc = Ok acc' →
  (∀ x a a', x ∈ l → pbody x a = Ok a' → ∀ tok, tok ∈ a' ↔ tok ∈ a ∨ C x tok) →
  ∀ tok, tok ∈ acc' ↔ tok ∈ acc ∨ ∃ x, x ∈ l ∧ C x tok.
Proof.
  induction l as [|x l IH]; intros acc acc' Hfold Hbody tok; cbn [fold_result] in Hfold.
  - injection Hfold as <-. split; [by left|].
    intros [H|(x & Hx & _)]; [done|]. by apply elem_of_nil in Hx.
  - destruct (pbody x acc) as [acc1|e] eqn:Hx; [|done].
    rewrite (IH acc1 acc' Hfold (λ y a a' Hy, Hbody y a a' (list_elem_of_further _ _ _ Hy))).
    rewrite (Hbody x acc acc1 (list_elem_of_here _ _) Hx).
    split.
    + intros [[H|H]|(y & Hy & H)]; [by left| |].
      * right. exists x. split; [left|done].
      * right. exists y. split; [by right|done].
    + intros [H|(y & Hy & H)]; [by left; left|].
      apply elem_of_cons in Hy as [->|Hy]; [by left; right|].
      right. by exists y.
Qed.

Lemma add_resolved_mem index und st opt exp acc acc' :
  add_resolved index und st opt exp acc = Ok acc' →
  ∀ tok, tok ∈ acc' ↔
         tok ∈ acc ∨ ∃ tsym, resolve_option index und st opt exp = Ok (Some (tok, tsym))
                             ∧ tok ≠ 0.
Proof.
  unfold add_resolved, mbind, result_bind.
  destruct (resolve_option index und st opt exp) as [[[t tsym]|]|e]; [| |done].
  - destruct (Z.eqb_spec t 0) as [->|Hne]; intros [= <-] tok.
    + split; [by left|]. intros [H|(ts & [= <- _] & H)]; done.
    + rewrite elem_of_union, elem_of_singleton. split.
      * intros [->|H]; [right; by exists tsym|by left].
      * intros [H|(ts & [= <- _] & H)]; [by right|by left].
  - intros [= <-] tok. split; [by left|]. intros [H|(ts & H & _)]; done.
Qed.

Lemma band_strike_offsets (k st : Z) :
  st ∈ elements ({[k; k - 50; k + 50; k - 100; k + 100]} : gset Z) ↔
  ∃ d, d ∈ [-2; -1; 0; 1; 2] ∧ st = k + 50 * d.
Proof.
  rewrite elem_of_elements, !elem_of_union, !elem_of_singleton. split.
  - intros [[[[->| ->]| ->]| ->]| ->];
      [exists 0|exists (-1)|exists 1|exists (-2)|exists 2];
      (split; [repeat first [apply list_elem_of_here|apply list_elem_of_further]|lia]).
  - intros (d & Hd & ->). rewrite !elem_of_cons in Hd.
    destruct Hd as [->|[->|[->|[->|[->|Hd]]]]]; [| | | | |by apply elem_of_nil in Hd].
    + left. right. lia.
    + left. left. left. right. lia.
    + left. left. left. left. lia.
    + left. left. right. lia.
    + right. lia.
Qed.

(** When the loops return, the band is what the index resolves of the five
    strikes, in calls and puts, at the tracked expiries. *)
Lemma band_of_index_mem index und k new :
  band_of_index index und {[k; k - 50; k + 50; k - 100; k + 100]} = Ok new →
  ∀ tok, tok ∈ new ↔ in_band index und k tok.
Proof.
  intros Hband tok. unfold band_of_index in Hband.
  set (C := λ (st : Z) (tok : Z),
         ∃ opt, opt ∈ ["CE"; "PE"] ∧ ∃ exp, exp ∈ OPTION_EXPIRIES ∧
           ∃ tsym, resolve_option index und st opt exp = Ok (Some (tok, tsym)) ∧ tok ≠ 0).
  cut (∀ st acc acc', st ∈ elements ({[k; k - 50; k + 50; k - 100; k + 100]} : gset Z) →
         fold_result ["CE"; "PE"] (λ opt acc,
           fold_result OPTION_EXPIRIES (λ exp acc,
             add_resolved index und st opt exp acc) acc) acc = Ok acc' →
         ∀ tok, tok ∈ acc' ↔ tok ∈ acc ∨ C st tok).
  - intros Hbody.
    rewrite (fold_result_mem C _ _ _ _ Hband Hbody tok).
    unfold C, in_band. split.
    + intros [H|(st & Hst & opt & Hopt & exp & Hexp & tsym & Hres & Hne)];
        [by apply elem_of_empty in H|].
      apply band_strike_offsets in Hst as (d & Hd & ->).
      by exists d, opt, exp, tsym.
    + intros (d & opt & exp & tsym & Hd & Hopt & Hexp & Hres & Hne).
      right. exists (k + 50 * d). split; [apply band_strike_offsets; by exists d|].
      exists opt. split; [done|]. exists exp. split; [done|]. by exists tsym.
  - intros st acc acc' _ Hst. unfold C.
    apply (fold_result_mem
             (λ opt tok, ∃ exp, exp ∈ OPTION_EXPIRIES ∧
                ∃ tsym, resolve_option index und st opt exp = Ok (Some (tok, tsym)) ∧ tok ≠ 0)
             _ _ _ _ Hst).
    intros opt acc1 acc1' _ Hopt.
    apply (fold_result_mem
             (λ exp tok,
                ∃ tsym, resolve_option index und st opt exp = Ok (Some (tok, tsym)) ∧ tok ≠ 0)
             _ _ _ _ Hopt).
    intros exp acc2 acc2' _ Hexp. by apply add_resolved_mem.
Qed.

Lemma band_of_index_ok index und k :
  band_resolvable index und k = true →
  ∃ new, band_of_index index und {[k; k - 50; k + 50; k - 100; k + 100]} = Ok new.
Proof.
  unfold band_resolvable, band_of_index. intros H.
  rewrite forallb_forall in H.
  apply fold_result_ok. intros st acc Hst.
  apply list_elem_of_In, H in Hst. rewrite forallb_forall in Hst.
  apply fold_result_ok. intros opt acc1 Hopt.
  apply list_elem_of_In, Hst in Hopt. rewrite forallb_forall in Hopt.
  apply fold_result_ok. intros exp acc2 Hexp.
  apply list_elem_of_In, Hopt in Hexp.
  unfold add_resolved, mbind, result_bind.
  destruct (resolve_option index und st opt exp); [by eexists|done].
Qed.

(** C8, as stated, fails on a first spot tick that carries no price:
    [round_to_strike] returns [None], which equals the unset reference
    strike, so the tick is recorded but no band is computed and nothing is
    subscribed; a first spot tick at 17482 does initialize the band. *)
Lemma first_spot_tick_without_price_skips_band :
  current_atm_strike sample_state = None ∧
  round_to_strike PNone = None ∧
  update_option_band "NIFTY" PNone sample_state = (Ok tt, sample_state) ∧
  (let '(r, s') := on_ticks datetime_only sample_clock [priceless_spot_tick] sample_state in
   r = Ok tt ∧ length (csv_rows s') = 1%nat ∧
   current_atm_strike s' = None ∧ current_option_tokens s' = ∅ ∧
   ws_calls s' = ws_calls sample_state) ∧
  current_atm_strike
    (on_ticks datetime_only sample_clock [spot_tick (PFloat 17482)] sample_state).2
  = Some 17500.
Proof. vm_compute. repeat split; reflexivity. Qed.

(** C8, amended. On the first spot tick whose price rounds to a strike [k]
    (no reference strike yet, no option subscribed), with every instrument
    that the index lists for the band resolvable, [update_option_band]
    returns having set the reference strike to [k] and the option tokens to
    exactly the band around [k], and having subscribed, in one call, the
    band tokens that were not active. *)
Theorem first_priced_spot_tick_initializes_band
        (und : string) (p : pyval) (k : Z) (s : state) :
  current_atm_strike s = None →
  current_option_tokens s = ∅ →
  round_to_strike p = Some k →
  band_resolvable (_nfo_index_by_key s) und k = true →
  ∃ s', update_option_band und p s = (Ok tt, s') ∧
        current_atm_strike s' = Some k ∧
        (∀ tok, tok ∈ current_option_tokens s' ↔ in_band (_nfo_index_by_key s) und k tok) ∧
        subscribed_tokens s' = subscribed_tokens s ∪ current_option_tokens s' ∧
        ws_calls s' =
          ws_calls s ++ subscribe_calls (filter (λ x, x ∉ subscribed_tokens s)
                                                (elements (current_option_tokens s'))).
Proof.
  intros Hatm Hcur Hk Hres.
  destruct (update_new_strike und p k s Hk) as (m & _ & Hupd); [congruence|].
  destruct (band_of_index_ok _ und k Hres) as [new Hband].
  cbn zeta in Hupd. rewrite Hband, Hcur in Hupd.
  rewrite difference_empty_L in Hupd.
  assert (He : (∅ : gset Z) ∖ new = ∅).
  { apply set_eq. intros x. rewrite elem_of_difference. split; [tauto|].
    intros Hx. by apply elem_of_empty in Hx. }
  rewrite He, elements_empty in Hupd. clear He.
  rewrite unsubscribe_tokens_spec, subscribe_tokens_spec in Hupd.
  cbn [fst snd] in Hupd.
  eexists. split; [exact Hupd|].
  cbn [current_atm_strike current_option_tokens subscribed_tokens ws_calls
       set_band set_subscribed with_syms filter list_filter unsubscribe_calls list_to_set
       foldr].
  split; [done|]. split; [by apply band_of_index_mem|].
  rewrite list_to_set_elements_L, difference_empty_L, app_nil_r. done.
Qed.

(** Witness for C8 amended: the recorder right after connecting, first spot
    tick at 17482. *)
Lemma first_priced_spot_tick_initializes_band_witness :
  ∃ s', update_option_band "NIFTY" (PFloat 17482) sample_state = (Ok tt, s') ∧
        current_atm_strike s' = Some 17500 ∧
        (∀ tok, tok ∈ current_option_tokens s' ↔
                in_band (_nfo_index_by_key sample_state) "NIFTY" 17500 tok) ∧
        subscribed_tokens s' = subscribed_tokens sample_state ∪ current_option_tokens s' ∧
        ws_calls s' =
          ws_calls sample_state
          ++ subscribe_calls (filter (λ x, x ∉ subscribed_tokens sample_state)
                                     (elements (current_option_tokens s'))).
Proof.
  apply (first_priced_spot_tick_initializes_band "NIFTY" (PFloat 17482) 17500 sample_state);
    vm_compute; reflexivity.
Defined.

(** ** From the catalog to the written row *)

Lemma index_entry_meta today inst acc acc' :
  index_entry today inst acc = Ok acc' →
  ∀ tok m, t_token_meta acc' !! tok = Some m →
           t_token_meta acc !! tok = Some m ∨ entry_gives today inst tok m.
Proof.
  unfold index_entry, mbind, result_bind, fmap, result_fmap.
  destruct (py_get inst "tradingsymbol" PNone) as [v_sym|] eqn:Hsym; [|done].
  destruct (py_upper (py_or v_sym (PStr ""))) as [ts|] eqn:Hts; [|done].
  destruct (py_get inst "strike" PNone) as [v_strike|] eqn:Hstrike; [|done].
  destruct (py_get inst "option_type" PNone) as [v_opt|] eqn:Hopt.
  2: { by destruct (truthy v_strike); [destruct (py_int v_strike)|]. }
  destruct (py_upper (py_or v_opt (PStr ""))) as [opt|] eqn:Hupper.
  2: { by destruct (truthy v_strike); [destruct (py_int v_strike)|]. }
  destruct (py_get inst "expiry" PNone) as [v_exp|] eqn:Hexp.
  2: { by destruct (truthy v_strike); [destruct (py_int v_strike)|]. }
  destruct (entry_expiry today ts v_exp) as [exp|] eqn:Hentry.
  2: { by destruct (truthy v_strike); [destruct (py_int v_strike)|]. }
  destruct (py_get inst "name" PNone) as [v_name|] eqn:Hname.
  2: { by destruct (truthy v_strike); [destruct (py_int v_strike)|]. }
  destruct (py_upper (py_or v_name (PStr ""))) as [und|] eqn:Hund.
  2: { by destruct (truthy v_strike); [destruct (py_int v_strike)|]. }
  destruct (truthy v_strike) eqn:Htruthy.
  2: { intros [= <-] tok m Hm. by left. }
  destruct (py_int v_strike) as [k|] eqn:Hint; [|done].
  destruct exp as [exp|].
  2: { intros [= <-] tok m Hm. by left. }
  destruct (negb (String.eqb und "") && negb (k =? 0) && negb (String.eqb opt "")).
  2: { intros [= <-] tok m Hm. by left. }
  destruct (py_getitem inst "instrument_token") as [v_tok|] eqn:Htok; [|done].
  destruct (py_int v_tok) as [tok0|] eqn:Htok0; [|done].
  intros [= <-] tok m Hm. cbn [t_token_meta] in Hm.
  apply lookup_insert_Some in Hm as [[<- <-]|[_ Hm]]; [|by left].
  right. exists v_sym, v_strike, v_opt, v_exp. cbn [m_tradingsymbol m_strike m_opt_type m_expiry].
  rewrite Htok. cbn. by rewrite Htok0.
Qed.

Lemma build_from_meta today instruments : ∀ acc acc',
  build_from today instruments acc = Ok acc' →
  ∀ tok m, t_token_meta acc' !! tok = Some m →
           t_token_meta acc !! tok = Some m
           ∨ ∃ inst, inst ∈ instruments ∧ entry_gives today inst tok m.
Proof.
  induction instruments as [|inst rest IH]; intros acc acc' Hbuild tok m Hm;
    cbn [build_from] in Hbuild.
  - injection Hbuild as <-. by left.
  - unfold mbind, result_bind in Hbuild.
    destruct (index_entry today inst acc) as [acc1|] eqn:Hentry; [|done].
    destruct (IH acc1 acc' Hbuild tok m Hm) as [H1|(i & Hi & Hgives)].
    + destruct (index_entry_meta today inst acc acc1 Hentry tok m H1) as [H|H]; [by left|].
      right. exists inst. split; [left|done].
    + right. exists i. split; [by right|done].
Qed.

(** What [record_tick] writes for an OPT row of a token with metadata. *)
Lemma record_tick_opt d t tok tsym ltp s m :
  option_meta_by_token s !! tok = Some m →
  record_tick (Stamp d t) tok tsym "OPT" ltp s =
    (Ok tt, add_row (mkrow (isoformat d +:+ " " +:+ digits2 (hour t) +:+ ":"
                            +:+ digits2 (minute t) +:+ ":" +:+ digits2 (second t)
                            +:+ "." +:+ digits3 (microsecond t / 1000))
                           tok tsym "OPT" ltp
                           (isoformat (m_expiry m)) (PInt (m_strike m)) (m_opt_type m)) s).
Proof.
  intros Hm. unfold record_tick, mbind, exec_bind, gets, lift, modify.
  cbn [String.eqb Ascii.eqb Bool.eqb strftime_ms]. by rewrite Hm.
Qed.

Lemma float_exact_int_trunc f k : float_exact_int f = Some k → int_of_float f = Ok k.
Proof.
  unfold float_exact_int, int_of_float.
  destruct (Prim2SF f) as [| | |sg m e]; try done.
  - by intros [= <-].
  - destruct (0 <=? e).
    + intros [= <-]. f_equal. destruct sg; lia.
    + destruct (_ =? 0); [|done].
      intros [= <-]. f_equal. destruct sg; lia.
Qed.

(** [int()] keeps a whole number as it is. *)
Lemma py_int_of_whole v k k' : as_int v = Some k → py_int v = Ok k' → py_eq v (PInt k') = true.
Proof.
  intros Hv Hint.
  assert (k' = k) as ->.
  { destruct v; cbn in Hv, Hint; try done; try congruence.
    apply float_exact_int_trunc in Hv. congruence. }
  destruct v; cbn in Hv; try done.
  - injection Hv as <-. cbn. apply Z.eqb_refl.
  - injection Hv as <-. cbn. apply Z.eqb_refl.
  - cbn. rewrite Hv. apply Z.eqb_refl.
Qed.

(** C9, as stated, fails on a catalog entry whose strike is not a whole
    number or whose option type is not in upper case: the entry of token 7
    has strike 17500.5 and its row says 17500; the entry of token 6 has
    option type "pe" and its row says "PE". *)
Lemma fractional_strike_is_not_written_as_listed :
  build_nfo_index_with_expiry sample_today sample_catalog = Ok sample_tables ∧
  option_meta_by_token sample_state = t_token_meta sample_tables ∧
  sample_catalog !! 6%nat
    = Some (sample_entry 7 "NIFTY27JAN17500PE" (PFloat 17500.5) "PE" (mkdate 2026 1 27)) ∧
  sample_catalog !! 5%nat
    = Some (sample_entry 6 "NIFTY27JAN17650PE" (PInt 17650) "pe" (mkdate 2026 1 27)) ∧
  (let s' := (record_tick sample_stamp 7 (PStr "NIFTY27JAN17500PE") "OPT" (PFloat 3)
                          sample_state).2 in
   r_strike <$> last (csv_rows s') = Some (PInt 17500) ∧
   py_eq (PFloat 17500.5) (PInt 17500) = false) ∧
  (let s' := (record_tick sample_stamp 6 (PStr "NIFTY27JAN17650PE") "OPT" (PFloat 3)
                          sample_state).2 in
   r_option_type <$> last (csv_rows s') = Some "PE" ∧
   py_eq (PStr "pe") (PStr "PE") = false).
Proof. vm_compute. repeat split; reflexivity. Qed.

(** C9, amended. Enrichment: for a token of the metadata map built from the
    catalog, the row of an OPT tick carries the metadata of a catalog entry
    with that token: the expiry is the ISO form of the entry's expiry date,
    the strike is [int()] of the entry's strike, equal to it when it is a
    whole number, and the option type is the entry's in upper case. *)
Theorem enrichment_follows_catalog_entry
        (today : date) (catalog : list pyval) (tables : nfo_tables) (s : state)
        (tok : Z) (m : option_meta) (d : date) (t : daytime) (tsym ltp : pyval) :
  build_nfo_index_with_expiry today catalog = Ok tables →
  option_meta_by_token s = t_token_meta tables →
  t_token_meta tables !! tok = Some m →
  ∃ (inst : pyval) (r : row),
    inst ∈ catalog ∧ entry_gives today inst tok m ∧
    record_tick (Stamp d t) tok tsym "OPT" ltp s = (Ok tt, add_row r s) ∧
    r_instrument_token r = tok ∧
    r_expiry r = isoformat (m_expiry m) ∧
    r_strike r = PInt (m_strike m) ∧
    r_option_type r = m_opt_type m ∧
    match py_get inst "expiry" PNone with
    | Ok (PDate e) | Ok (PDateTime e _) => r_expiry r = isoformat e
    | _ => True
    end ∧
    match py_get inst "strike" PNone with
    | Ok v => match as_int v with
              | Some _ => py_eq v (r_strike r) = true
              | None => True
              end
    | Raise _ => True
    end ∧
    match py_get inst "option_type" PNone with
    | Ok (PStr o) => r_option_type r = str_upper o
    | _ => True
    end.
Proof.
  intros Hbuild Hs Hm.
  destruct (build_from_meta today catalog _ _ Hbuild tok m Hm) as [H|(inst & Hin & Hgives)].
  { cbn [t_token_meta] in H. by rewrite lookup_empty in H. }
  exists inst. eexists. split; [done|]. split; [done|].
  split; [apply record_tick_opt; by rewrite Hs|].
  cbn [r_instrument_token r_expiry r_strike r_option_type].
  do 4 (split; [done|]).
  destruct Hgives as (v_sym & v_strike & v_opt & v_exp &
                      Hsym & Hts & Hstrike & Hint & Hopt & Hupper & Hexp & Hentry & Htok).
  rewrite Hexp, Hstrike, Hopt. split; [|split].
  - destruct v_exp; try done; cbn in Hentry; congruence.
  - destruct (as_int v_strike) as [k|] eqn:Hk; [|done].
    by eapply py_int_of_whole.
  - destruct v_opt as [| | | |o| | |]; try done.
    unfold py_or in Hupper. destruct (truthy (PStr o)) eqn:Ho; cbn in Hupper, Ho.
    + by injection Hupper as <-.
    + apply negb_false_iff, String.eqb_eq in Ho as ->. cbn in Hupper.
      by injection Hupper as <-.
Qed.

(** Witness for C9 amended: the call at strike 17500 in the sample catalog. *)
Lemma enrichment_follows_catalog_entry_witness :
  ∃ (inst : pyval) (r : row),
    inst ∈ sample_catalog ∧
    entry_gives sample_today inst 3 (mkmeta (mkdate 2026 1 20) 17500 "CE" "NIFTY20JAN17500CE") ∧
    record_tick sample_stamp 3 (PStr "NIFTY20JAN17500CE") "OPT" (PFloat 12.5) sample_state
      = (Ok tt, add_row r sample_state) ∧
    r_instrument_token r = 3 ∧
    r_expiry r = "2026-01-20" ∧
    r_strike r = PInt 17500 ∧
    r_option_type r = "CE" ∧
    match py_get inst "expiry" PNone with
    | Ok (PDate e) | Ok (PDateTime e _) => r_expiry r = isoformat e
    | _ => True
    end ∧
    match py_get inst "strike" PNone with
    | Ok v => match as_int v with
              | Some _ => py_eq v (r_strike r) = true
              | None => True
              end
    | Raise _ => True
    end ∧
    match py_get inst "option_type" PNone with
    | Ok (PStr o) => r_option_type r = str_upper o
    | _ => True
    end.
Proof.
  apply (enrichment_follows_catalog_entry sample_today sample_catalog sample_tables
           sample_state 3 (mkmeta (mkdate 2026 1 20) 17500 "CE" "NIFTY20JAN17500CE"));
    vm_compute; reflexivity.
Defined.

(** ** Deliveries *)

Lemma row_of_tick_later spot meta (syms syms' : gmap Z pyval) t r :
  (∀ tok : Z, syms' !! tok = None → syms !! tok = None) →
  row_of_tick spot meta syms t r → row_of_tick spot meta syms' t r.
Proof.
  intros Hmono (Htok & Hltp & Hkind & Hsym & Hmeta).
  do 3 (split; [done|]). split; [|done].
  intros H. by apply Hsym, Hmono.
Qed.

(** One record: the state keeps its spot tokens and metadata and forgets no
    symbol; a record handled to the end leaves exactly one row, and a record
    that raises leaves one row or none. *)
Lemma on_tick_spec td now t s :
  let '(r, s') := on_tick td now t s in
  spot_tokens s' = spot_tokens s ∧
  option_meta_by_token s' = option_meta_by_token s ∧
  (∀ tok : Z, token_to_sym s' !! tok = None → token_to_sym s !! tok = None) ∧
  match r with
  | Ok _ =>
      ∃ row, csv_rows s' = csv_rows s ++ [row] ∧
             row_of_tick (spot_tokens s) (option_meta_by_token s) (token_to_sym s) t row
  | Raise _ =>
      csv_rows s' = csv_rows s ∨
      ∃ row, csv_rows s' = csv_rows s ++ [row] ∧
             row_of_tick (spot_tokens s) (option_meta_by_token s) (token_to_sym s) t row
  end.
Proof.
  unfold on_tick, mbind at 1 2 3 4 5 6, exec_bind, lift, gets.
  destruct (py_get t "instrument_token" (PInt 0) ≫= _) as [tok|e] eqn:Htok;
    [|by repeat split; try left].
  destruct (py_get t "last_price" PNone) as [ltp|e] eqn:Hltp;
    [|by repeat split; try left].
  destruct (_extract_tick_ts td now t) as [ts|e]; [|by repeat split; try left].
  unfold record_tick, mbind, exec_bind, lift, gets, modify.
  destruct (strftime_ms ts) as [stamp|e]; [|by repeat split; try left].
  set (is_spot := bool_decide (tok ∈ spot_tokens s)).
  set (row := mkrow stamp tok _ _ ltp _ _ _).
  assert (Hrow : row_of_tick (spot_tokens s) (option_meta_by_token s) (token_to_sym s) t row).
  { unfold row_of_tick, row. cbn [r_instrument_token r_last_price r_kind r_tradingsymbol
                                  r_expiry r_strike r_option_type].
    fold is_spot. do 3 (split; [done|]). split.
    - intros H. by rewrite H.
    - intros [H|H].
      + unfold is_spot. rewrite bool_decide_eq_true_2 by done. done.
      + destruct is_spot; cbn [String.eqb Ascii.eqb Bool.eqb]; [done|]. by rewrite H. }
  clearbody row. destruct is_spot.
  - pose proof (update_option_band_frame "NIFTY" ltp (add_row row s)) as Hframe.
    cbn zeta in Hframe.
    destruct (update_option_band "NIFTY" ltp (add_row row s)) as [r s'].
    cbn [snd] in Hframe. destruct Hframe as (Hrows & Hspot & Hmeta & _ & Hsyms).
    repeat split; try done.
    destruct r; [|right]; by exists row.
  - repeat split; try done. by exists row.
Qed.

Lemma on_ticks_from_spec td clock ticks : ∀ i s,
  let '(r, s') := on_ticks_from td clock i ticks s in
  spot_tokens s' = spot_tokens s ∧
  option_meta_by_token s' = option_meta_by_token s ∧
  (∀ tok : Z, token_to_sym s' !! tok = None → token_to_sym s !! tok = None) ∧
  ∃ rows, csv_rows s' = csv_rows s ++ rows ∧
          Forall2 (row_of_tick (spot_tokens s) (option_meta_by_token s) (token_to_sym s'))
                  (take (length rows) ticks) rows ∧
          match r with
          | Ok _ => length rows = length ticks
          | Raise _ => (length rows ≤ length ticks)%nat
          end.
Proof.
  induction ticks as [|t ticks IH]; intros i s; cbn [on_ticks_from].
  - repeat split; try done. exists []. by rewrite app_nil_r.
  - unfold mbind, exec_bind.
    pose proof (on_tick_spec td (clock i) t s) as H1.
    destruct (on_tick td (clock i) t s) as [r1 s1].
    destruct H1 as (Hspot1 & Hmeta1 & Hsyms1 & Hrow1).
    destruct r1 as [[]|e].
    + destruct Hrow1 as (row & Hrows1 & Hrow).
      specialize (IH (S i) s1).
      destruct (on_ticks_from td clock (S i) ticks s1) as [r s'].
      destruct IH as (Hspot & Hmeta & Hsyms & rows & Hrows & Hall & Hlen).
      rewrite Hspot1, Hmeta1 in *.
      repeat split; try done; [by intros tok Htok; apply Hsyms1, Hsyms|].
      exists (row :: rows). split; [by rewrite Hrows, Hrows1, <- app_assoc|].
      split.
      * cbn [length take]. constructor; [|done].
        apply (row_of_tick_later _ _ (token_to_sym s)); [|done].
        intros tok Htok. by apply Hsyms1, Hsyms.
      * cbn [length]. destruct r; lia.
    + repeat split; try done.
      destruct Hrow1 as [Hrows1|(row & Hrows1 & Hrow)].
      * exists []. rewrite app_nil_r. repeat split; [done|constructor|cbn; lia].
      * exists [row]. split; [done|]. split; [|cbn; lia].
        cbn [length take]. constructor; [|constructor].
        by apply (row_of_tick_later _ _ (token_to_sym s)).
Qed.

(** C10, as stated, fails on a delivery that raises: a record whose token is
    [None] stops [on_ticks] before anything is written, and a spot tick
    without a price, once a strike is set, is recorded and then stops it;
    the records behind them get no row. *)
Lemma unhandled_ticks_get_no_row :
  (let '(r, s') := on_ticks datetime_only sample_clock
                     [tokenless_tick; option_tick 3 (PFloat 12.5)] sample_state in
   r = Raise TypeError ∧ length (csv_rows s') = 0%nat) ∧
  (let '(r, s') := on_ticks datetime_only sample_clock
                     [spot_tick (PFloat 17482); priceless_spot_tick;
                      option_tick 3 (PFloat 12.5)] sample_state in
   r = Raise TypeError ∧ length (csv_rows s') = 2%nat).
Proof. vm_compute. repeat split; reflexivity. Qed.

(** C10, amended. [on_ticks] writes one row for each record it handles, in
    order: for all the records when it returns, for the records up to the
    one that raised (that one included or not) when it raises.  The row has
    the record's token and price and the kind "SPOT" exactly when the token
    is a spot token, "OPT" otherwise; a token without a known symbol gets
    the empty symbol, and a spot token or a token without metadata gets
    empty expiry, strike and option type. *)
Theorem on_ticks_writes_one_row_per_handled_tick
        (to_datetime : pyval → result timestamp) (clock : nat → date * daytime)
        (ticks : list pyval) (s : state) :
  let '(r, s') := on_ticks to_datetime clock ticks s in
  ∃ rows, csv_rows s' = csv_rows s ++ rows ∧
          Forall2 (row_of_tick (spot_tokens s) (option_meta_by_token s) (token_to_sym s'))
                  (take (length rows) ticks) rows ∧
          match r with
          | Ok _ => length rows = length ticks
          | Raise _ => (length rows ≤ length ticks)%nat
          end.
Proof.
  unfold on_ticks.
  pose proof (on_ticks_from_spec to_datetime clock ticks 0 s) as H.
  destruct (on_ticks_from to_datetime clock 0 ticks s) as [r s'].
  by destruct H as (_ & _ & _ & H).
Qed.

(** C6. The recorder's [on_ticks] has no handler around the record: a record
    whose token is [None] raises [TypeError] out of [on_ticks], whatever the
    state and whatever follows it in the delivery, and none of the records
    behind it is recorded; likewise, once a strike is set, a spot tick
    without a price is recorded and then raises, and the option tick behind
    it is never recorded. *)
Theorem recorder_delivery_stops_at_bad_record
        (to_datetime : pyval → result timestamp) (clock : nat → date * daytime)
        (s : state) (rest : list pyval) :
  on_ticks to_datetime clock (tokenless_tick :: rest) s = (Raise TypeError, s) ∧
  (let '(r, s') := on_ticks to_datetime clock
                     [spot_tick (PFloat 17482); priceless_spot_tick;
                      option_tick 3 (PFloat 12.5)] sample_state in
   r = Raise TypeError ∧ length (csv_rows s') = 2%nat ∧
   current_atm_strike s' = Some 17500).
Proof.
  split; [reflexivity|].
  vm_compute. repeat split; reflexivity.
Qed.

(** ** Timestamps *)

Lemma py_getitem_truthy items k :
  truthy (field items k) = true → py_getitem (PDict items) k = Ok (field items k).
Proof. unfold field, py_getitem. by destruct (assoc k items). Qed.

(** C7. Timestamp resolution: in both programs the timestamp of a record is
    taken from the first of "timestamp", "last_trade_time" and
    "exchange_timestamp", in this order, that provides one, and the wall
    clock is read only when none does.  For the producer a field provides a
    timestamp when it holds a value that is not empty; for the recorder the
    value must also be accepted by [to_datetime]. *)
Theorem timestamp_resolution_order
        (py_str : pyval → string) (to_datetime : pyval → result timestamp)
        (utc_now : string) (now : date * daytime) (items : list (string * pyval)) :
  Producer._extract_ts_from_tick py_str utc_now (PDict items) =
    Ok (if truthy (field items "timestamp") then py_str (field items "timestamp")
        else if truthy (field items "last_trade_time")
             then py_str (field items "last_trade_time")
        else if truthy (field items "exchange_timestamp")
             then py_str (field items "exchange_timestamp")
        else utc_now)
  ∧ _extract_tick_ts to_datetime now (PDict items) =
    Ok (match usable to_datetime items "timestamp" with
        | Some ts => ts
        | None =>
            match usable to_datetime items "last_trade_time" with
            | Some ts => ts
            | None =>
                match usable to_datetime items "exchange_timestamp" with
                | Some ts => ts
                | None => Stamp now.1 now.2
                end
            end
        end).
Proof.
  split.
  - unfold Producer._extract_ts_from_tick, Producer.TS_KEYS.
    cbn [Producer.extract_ts_loop]. unfold mbind, result_bind.
    rewrite !ProducerProofs.py_get_dict.
    by repeat destruct (truthy _).
  - unfold _extract_tick_ts, TS_KEYS, usable.
    cbn [extract_ts_loop]. unfold mbind, result_bind.
    rewrite !ProducerProofs.py_get_dict.
    repeat match goal with
           | |- context [truthy (field items ?k)] =>
               destruct (truthy (field items k)) eqn:?;
               [rewrite (py_getitem_truthy items k) by done;
                destruct (to_datetime (field items k))|]
           end; done.
Qed.

End RecorderProofs.

(** * More on the producer *)
Module ProducerMore.
Import Py Producer ProducerProofs.
Local Open Scope Z_scope.

(** ** The writer and the queue *)

(** X1. A writer pass that finds the queue empty does no I/O: whatever the
    file system would answer, the file, the thread and the log stay as they
    are and the queue stays empty. *)
Theorem idle_pass_does_no_io (io : io_outcome) (s : pstate) :
  write_queue s = [] →
  out_file (writer_cycle io s) = out_file s ∧
  writer (writer_cycle io s) = writer s ∧
  write_queue (writer_cycle io s) = [] ∧
  dbg_out (writer_cycle io s) = dbg_out s.
Proof.
  intros Hq. unfold writer_cycle.
  destruct (writer s) eqn:Hw; [|by rewrite Hw, Hq].
  rewrite drain_locked_spec, Hq. by cbn; rewrite Hw.
Qed.

(** Witness for X1: the first pass on the fresh module, with a file system
    that would refuse the write. *)
Lemma idle_pass_does_no_io_witness :
  out_file (writer_cycle (IoError 0) (initial [])) = out_file (initial []) ∧
  writer (writer_cycle (IoError 0) (initial [])) = writer (initial []) ∧
  write_queue (writer_cycle (IoError 0) (initial [])) = [] ∧
  dbg_out (writer_cycle (IoError 0) (initial [])) = dbg_out (initial []).
Proof. apply (idle_pass_does_no_io (IoError 0) (initial [])). reflexivity. Defined.

Lemma step_keeps_event s ev :
  (write_queue s = [] ∨ queue_event s = true) →
  write_queue (step s ev) = [] ∨ queue_event (step s ev) = true.
Proof.
  intros Hs. destruct ev as [t|io]; cbn [step].
  - by right.
  - destruct (writer s) eqn:Hw.
    + left. by rewrite writer_cycle_queue, Hw.
    + unfold writer_cycle. by rewrite Hw.
Qed.

(** X2. No lost wake-up: along every run of the module, whenever records
    wait in the queue the event is set, so the writer's wait returns at
    once. *)
Theorem waiting_records_keep_the_event_set (evs : list event) (f0 : list qtick) :
  match write_queue (run evs (initial f0)) with
  | [] => True
  | _ :: _ => queue_event (run evs (initial f0)) = true
  end.
Proof.
  assert (H : ∀ s, (write_queue s = [] ∨ queue_event s = true) →
                   write_queue (run evs s) = [] ∨ queue_event (run evs s) = true).
  { unfold run. induction evs as [|ev evs IH]; intros s Hs; cbn [fold_left]; [done|].
    by apply IH, step_keeps_event. }
  destruct (H (initial f0)) as [Hq|He]; [by left|by rewrite Hq|].
  by destruct (write_queue _).
Qed.

Lemma deque_append_sublist {A} (maxlen : Z) (q : list A) (x : A) :
  deque_append maxlen q x `sublist_of` q ++ [x].
Proof.
  unfold deque_append. destruct (_ <? _); [|done].
  destruct (q ++ [x]); [done|]. by apply sublist_cons.
Qed.

(** X3. The file and the queue together hold, at any time, a subsequence of
    what was there and what was enqueued: no record is written twice, none
    is written that was not enqueued, and the order of enqueue is kept, also
    through evictions and failed writes. *)
Theorem file_keeps_enqueue_order (evs : list event) (s : pstate) :
  out_file (run evs s) ++ write_queue (run evs s)
    `sublist_of` out_file s ++ write_queue s ++ enqueued evs.
Proof.
  unfold run. revert s. induction evs as [|ev evs IH]; intros s; cbn [fold_left enqueued].
  - by rewrite app_nil_r.
  - etrans; [apply IH|]. destruct ev as [t|io]; cbn [step enqueued].
    + cbn [out_file write_queue enqueue_tick set_queue].
      apply sublist_app; [done|].
      rewrite (cons_middle t (write_queue s) (enqueued evs)), app_assoc.
      apply sublist_app; [apply deque_append_sublist|done].
    + unfold writer_cycle. destruct (writer s); [|done].
      rewrite drain_locked_spec.
      destruct (write_queue s) as [|x q] eqn:Hq; [done|].
      destruct io as [|n]; cbn [write_batch out_file write_queue set_queue].
      * by rewrite <- app_assoc.
      * rewrite <- !app_assoc. apply sublist_app; [done|].
        apply sublist_app; [apply sublist_take|done].
Qed.

(** X4. The file is only appended to: what it held before a run is a prefix
    of what it holds after. *)
Theorem file_is_append_only (evs : list event) (s : pstate) :
  out_file s `prefix_of` out_file (run evs s).
Proof.
  unfold run. revert s. induction evs as [|ev evs IH]; intros s; cbn [fold_left]; [done|].
  etrans; [|apply IH]. destruct ev as [t|io]; cbn [step]; [done|].
  unfold writer_cycle. destruct (writer s); [|done].
  rewrite drain_locked_spec.
  destruct (write_queue s) as [|x q]; [done|].
  destruct io; cbn; by apply prefix_app_r.
Qed.

(** X5. Nothing is lost while the bursts fit: when the writer runs, every
    flush succeeds and no more than [QUEUE_MAXLEN] records ever wait between
    two passes, the file and the queue hold exactly what was there followed
    by every record enqueued, in order, and the writer still runs. *)
Theorem nothing_lost_while_bursts_fit (evs : list event) (s : pstate) :
  writer s = Running →
  flushes_succeed evs = true →
  bursts_fit (Z.of_nat (length (write_queue s))) evs = true →
  out_file (run evs s) ++ write_queue (run evs s)
    = out_file s ++ write_queue s ++ enqueued evs ∧
  writer (run evs s) = Running.
Proof.
  unfold run. revert s.
  induction evs as [|ev evs IH]; intros s Hw Hok Hfit; cbn [fold_left enqueued].
  - by rewrite app_nil_r.
  - destruct ev as [t|io]; cbn [step flushes_succeed bursts_fit enqueued] in *.
    + apply andb_true_iff in Hfit as [Hroom Hfit]. apply Z.leb_le in Hroom.
      assert (Hq : write_queue (enqueue_tick t s) = write_queue s ++ [t]).
      { cbn [write_queue enqueue_tick set_queue]. unfold deque_append.
        rewrite length_app; cbn [length].
        destruct (Z.ltb_spec QUEUE_MAXLEN (Z.of_nat (length (write_queue s) + 1)));
          [lia|done]. }
      destruct (IH (enqueue_tick t s)) as [-> ->]; [done|done| |].
      * rewrite Hq, length_app; cbn [length].
        by replace (Z.of_nat (length (write_queue s) + 1))
          with (Z.of_nat (length (write_queue s)) + 1) by lia.
      * split; [|done]. rewrite Hq. cbn [out_file enqueue_tick set_queue].
        by rewrite <- !app_assoc.
    + destruct io as [|n]; [|done].
      assert (Hs : writer (writer_cycle IoOk s) = Running ∧
                   write_queue (writer_cycle IoOk s) = [] ∧
                   out_file (writer_cycle IoOk s) = out_file s ++ write_queue s).
      { unfold writer_cycle. rewrite Hw, drain_locked_spec.
        destruct (write_queue s); cbn; by rewrite ?app_nil_r. }
      destruct Hs as (Hw1 & Hq1 & Hf1).
      destruct (IH (writer_cycle IoOk s)) as [-> ->]; [done|done|by rewrite Hq1|].
      split; [|done]. by rewrite Hq1, Hf1, <- app_assoc.
Qed.

(** Witness for X5: two records, a pass, a third record. *)
Lemma nothing_lost_while_bursts_fit_witness :
  let evs := [Enqueue (numbered_tick 0); Enqueue (numbered_tick 1); WriterPass IoOk;
              Enqueue (numbered_tick 2)] in
  out_file (run evs (initial [])) ++ write_queue (run evs (initial []))
    = out_file (initial []) ++ write_queue (initial []) ++ enqueued evs ∧
  writer (run evs (initial [])) = Running.
Proof.
  apply (nothing_lost_while_bursts_fit
           [Enqueue (numbered_tick 0); Enqueue (numbered_tick 1); WriterPass IoOk;
            Enqueue (numbered_tick 2)] (initial [])); reflexivity.
Defined.

(** ** The callbacks *)

Section CallbackMore.
Variable py_str : pyval → string.

Lemma outcomes_split (clock : nat → string) (ticks : list pyval) : ∀ i,
  Forall2 keeps_fields (filter is_dict ticks) (accepted py_str clock i ticks) ∧
  rejected py_str clock i ticks
    = replicate (length (filter (λ t, ¬ is_dict t) ticks)) AttributeError.
Proof.
  unfold accepted, rejected.
  induction ticks as [|t ticks IH]; intros i; cbn [outcomes omap list_omap]; [done|].
  destruct (IH (S i)) as [Hacc Hrej].
  destruct t as [| | | | | | |items];
    try (rewrite (normalize_not_dict py_str (clock i)) by done;
         rewrite filter_cons_False, filter_cons_True by (cbn; tauto);
         cbn [length replicate]; split; [done|by f_equal]).
  destruct (normalize_dict py_str (clock i) items) as (ts & _ & ->).
  rewrite filter_cons_True, filter_cons_False by (cbn; tauto).
  split; [|done]. constructor; [|done]. by exists items.
Qed.

(** X6. The producer's [on_ticks] handles every record of a delivery and
    never touches the file or the writer: each dict is enqueued, in order,
    with its token, symbol and price (a missing field as [None]), and each
    record that is not a dict is logged as an [AttributeError] and dropped. *)
Theorem on_ticks_enqueues_dicts_and_logs_the_rest
        (clock : nat → string) (ticks : list pyval) (s : pstate) :
  let s' := on_ticks py_str clock ticks s in
  ∃ rs : list qtick,
    write_queue s' = deque_extend QUEUE_MAXLEN (write_queue s) rs ∧
    Forall2 keeps_fields (filter is_dict ticks) rs ∧
    dbg_out s' = dbg_out s
                 ++ replicate (length (filter (λ t, ¬ is_dict t) ticks)) AttributeError ∧
    out_file s' = out_file s ∧ writer s' = writer s.
Proof.
  cbn zeta. unfold on_ticks.
  destruct (on_ticks_handles_every_record py_str clock ticks 0 s) as (Hq & Hd & Hf & Hw).
  destruct (outcomes_split clock ticks 0) as [Hacc Hrej].
  exists (accepted py_str clock 0 ticks). by rewrite <- Hrej.
Qed.

(** X22. The timestamp of a queued record: for a dict the producer keeps the
    first of [timestamp], [last_trade_time] and [exchange_timestamp] that
    holds a truthy value, as [str] renders it, and the wall clock when none
    does; a field that is present but falsy (None, an empty string, zero)
    is passed over like a missing one. *)
Theorem queued_timestamp_is_first_truthy_field
        (now : string) (items : list (string * pyval)) :
  normalize py_str now (PDict items) =
    Ok (mkqtick (field items "instrument_token") (field items "tradingsymbol")
                (field items "last_price")
                match find (λ k, truthy (field items k)) TS_KEYS with
                | Some k => py_str (field items k)
                | None => now
                end).
Proof.
  unfold normalize, _extract_ts_from_tick, TS_KEYS. cbn [extract_ts_loop find].
  rewrite !py_get_dict. unfold mbind, result_bind.
  destruct (truthy (field items "timestamp")); [done|].
  destruct (truthy (field items "last_trade_time")); [done|].
  by destruct (truthy (field items "exchange_timestamp")).
Qed.
End CallbackMore.

Lemma wanted_tokens_cons (i : pyval) (rest : list pyval) :
  wanted_tokens (i :: rest) =
    match py_getitem i "tradingsymbol" with
    | Raise e => Raise e
    | Ok v =>
        match py_upper v with
        | Raise e => Raise e
        | Ok sym =>
            if bool_decide (sym = "NIFTY 50") then
              match (v ← py_getitem i "instrument_token"; py_int v) with
              | Raise e => Raise e
              | Ok tok => match wanted_tokens rest with
                          | Ok toks => Ok (tok :: toks)
                          | Raise e => Raise e
                          end
              end
            else wanted_tokens rest
        end
    end.
Proof.
  cbn [wanted_tokens]. unfold mbind, result_bind.
  destruct (py_getitem i "tradingsymbol") as [v|]; [|done].
  destruct (py_upper v) as [sym|]; [|done].
  rewrite (bool_decide_ext (sym ∈ map str_upper SYMBOLS) (sym = "NIFTY 50"))
    by apply list_elem_of_singleton.
  by destruct (bool_decide _).
Qed.

Lemma wanted_tokens_mem (instruments : list pyval) : ∀ toks,
  wanted_tokens instruments = Ok toks →
  ∀ tok, tok ∈ toks ↔
         ∃ i sym, i ∈ instruments ∧
                  py_getitem i "tradingsymbol" = Ok (PStr sym) ∧
                  str_upper sym = "NIFTY 50" ∧
                  (v ← py_getitem i "instrument_token"; py_int v) = Ok tok.
Proof.
  induction instruments as [|i rest IH]; intros toks Hw tok.
  - injection Hw as <-. split; [by intros H%elem_of_nil|].
    by intros (i & sym & H%elem_of_nil & _).
  - rewrite wanted_tokens_cons in Hw.
    destruct (py_getitem i "tradingsymbol") as [v|] eqn:Hv; [|done].
    destruct v as [| | | |sym| | |]; try done. cbn [py_upper] in Hw.
    case_bool_decide as Hsym.
    + destruct (py_getitem i "instrument_token" ≫= _) as [t|] eqn:Ht; [|done].
      destruct (wanted_tokens rest) as [ts|] eqn:Hrest; [|done].
      injection Hw as <-. rewrite elem_of_cons, (IH ts eq_refl tok). split.
      * intros [->|(j & sj & Hj & H)].
        -- exists i, sym. by split; [left|].
        -- exists j, sj. by split; [right|].
      * intros (j & sj & [->|Hj]%elem_of_cons & Hs1 & Hs2 & Hs3).
        -- left. rewrite Ht in Hs3. by injection Hs3.
        -- right. by exists j, sj.
    + rewrite (IH toks Hw tok). split.
      * intros (j & sj & Hj & H). exists j, sj. by split; [right|].
      * intros (j & sj & [->|Hj]%elem_of_cons & Hs1 & Hs2 & Hs3).
        -- rewrite Hv in Hs1. by injection Hs1 as <-.
        -- by exists j, sj.
Qed.

(** An exception of [wanted_tokens] is the exception of one entry: of the
    lookup or the [upper] of its symbol, or of the [int] of its token. *)
Lemma wanted_tokens_raise (instruments : list pyval) (e : exn) :
  wanted_tokens instruments = Raise e →
  ∃ i, i ∈ instruments ∧
       ((v ← py_getitem i "tradingsymbol"; py_upper v) = Raise e
        ∨ (v ← py_getitem i "instrument_token"; py_int v) = Raise e).
Proof.
  induction instruments as [|i rest IH]; intros Hw; [done|].
  rewrite wanted_tokens_cons in Hw.
  assert (Hrest : wanted_tokens rest = Raise e →
                  ∃ j, j ∈ i :: rest ∧
                       ((v ← py_getitem j "tradingsymbol"; py_upper v) = Raise e
                        ∨ (v ← py_getitem j "instrument_token"; py_int v) = Raise e)).
  { intros H. destruct (IH H) as (j & Hj & Hfail). exists j. by split; [right|]. }
  destruct (py_getitem i "tradingsymbol") as [v|e1] eqn:Hv.
  - destruct (py_upper v) as [sym|e2] eqn:Hup.
    + destruct (bool_decide _); [|by apply Hrest].
      destruct (py_getitem i "instrument_token" ≫= _) as [t|e3] eqn:Ht.
      * destruct (wanted_tokens rest) as [ts|e4] eqn:Hr; [done|].
        injection Hw as ->. by apply Hrest.
      * injection Hw as ->. exists i. split; [left|by right].
    + injection Hw as ->. exists i. split; [left|]. left.
      unfold mbind, result_bind. by rewrite Hv.
  - injection Hw as ->. exists i. split; [left|]. left.
    unfold mbind, result_bind. by rewrite Hv.
Qed.

(** X7. When the producer's [on_connect] returns, it has made exactly two
    calls, [subscribe] and [set_mode], with the same token list, also when
    the list is empty; the list holds the tokens of the catalog entries whose
    trading symbol is "NIFTY 50" in any letter case, and no other.  When it
    raises, it raises the exception of one catalog entry and has made no
    call. *)
Theorem on_connect_subscribes_the_wanted_symbol (instruments : list pyval) :
  match on_connect instruments with
  | Ok calls =>
      ∃ toks, calls = [Subscribe toks; SetModeFull toks] ∧
              ∀ tok, tok ∈ toks ↔
                     ∃ i sym, i ∈ instruments ∧
                              py_getitem i "tradingsymbol" = Ok (PStr sym) ∧
                              str_upper sym = "NIFTY 50" ∧
                              (v ← py_getitem i "instrument_token"; py_int v) = Ok tok
  | Raise e =>
      ∃ i, i ∈ instruments ∧
           ((v ← py_getitem i "tradingsymbol"; py_upper v) = Raise e
            ∨ (v ← py_getitem i "instrument_token"; py_int v) = Raise e)
  end.
Proof.
  unfold on_connect. unfold mbind at 1, result_bind at 1.
  destruct (wanted_tokens instruments) as [toks|e] eqn:Hw.
  - exists toks. split; [done|]. by apply wanted_tokens_mem.
  - by apply wanted_tokens_raise.
Qed.

(** X8. The producer stops at 15:15:00 sharp: for a time of day with fields
    in their ranges, [should_exit] holds exactly from 54,900 seconds after
    midnight on. *)
Theorem should_exit_from_market_close (now : daytime) :
  valid_time now →
  should_exit now = true ↔ 54900 * 1000000 <= micros_of_day now.
Proof.
  intros (Hh & Hm & Hs & Hu).
  unfold should_exit, time_le, time_lt, micros_of_day, MARKET_CLOSE.
  cbn [hour minute second microsecond].
  rewrite negb_true_iff, <- not_true_iff_false.
  rewrite !orb_true_iff, !andb_true_iff, !Z.ltb_lt, !Z.eqb_eq. lia.
Qed.

(** Witness for X8: 15:15:00.000000 itself. *)
Lemma should_exit_from_market_close_witness :
  should_exit (mktime 15 15 0 0) = true
  ↔ 54900 * 1000000 <= micros_of_day (mktime 15 15 0 0).
Proof.
  apply (should_exit_from_market_close (mktime 15 15 0 0)).
  unfold valid_time; cbn; lia.
Defined.

End ProducerMore.

(** * More on the recorder *)
Module RecorderMore.
Import Py Recorder RecorderProofs.
Local Open Scope Z_scope.

(** ** Expiry dates *)

Lemma make_date_ok y m d dt :
  make_date y m d = Ok dt →
  dt = mkdate y m d ∧ 1 <= y <= 9999 ∧ 1 <= m <= 12 ∧ 1 <= d <= days_in_month y m.
Proof.
  unfold make_date. destruct (_ && _) eqn:H; [|done]. intros [= <-].
  repeat (apply andb_true_iff in H as [H ?]).
  repeat match goal with H : (_ <=? _) = true |- _ => apply Z.leb_le in H end.
  repeat split; lia.
Qed.

(** X9. An expiry read off a trading symbol is never in the past: it is a
    day of the calendar, in today's year when the symbol's month and day are
    today or later in the year, and in the next year otherwise. *)
Theorem parsed_expiry_is_not_past (today : date) (tsym : string) (d : date) :
  _parse_expiry_from_tradingsymbol today tsym = Ok (Some d) →
  1 <= month d <= 12 ∧ 1 <= day d <= days_in_month (year d) (month d) ∧
  ((year d = year today ∧
    (month today < month d ∨ (month d = month today ∧ day today <= day d)))
   ∨ (year d = year today + 1 ∧
      (month d < month today ∨ (month d = month today ∧ day d < day today)))).
Proof.
  unfold _parse_expiry_from_tradingsymbol.
  destruct (match_TS_RE tsym) as [[dd mm]|]; [|done].
  destruct (_MONTH_MAP mm) as [mon|]; [|done].
  unfold fmap, result_fmap.
  destruct (make_date _ mon (digits_value dd)) as [dt|] eqn:Hdate; [|done].
  intros [= <-]. apply make_date_ok in Hdate as (-> & Hy & Hm & Hd).
  cbn [year month day] in *.
  destruct ((mon <? month today) || (mon =? month today) && (digits_value dd <? day today))
    eqn:Hnext.
  - apply orb_true_iff in Hnext as [H|H].
    + apply Z.ltb_lt in H. lia.
    + apply andb_true_iff in H as [H1 H2]. apply Z.eqb_eq in H1. apply Z.ltb_lt in H2. lia.
  - apply orb_false_iff in Hnext as [H1 H2]. apply Z.ltb_ge in H1.
    apply andb_false_iff in H2.
    destruct H2 as [H2|H2]; [apply Z.eqb_neq in H2|apply Z.ltb_ge in H2]; lia.
Qed.

(** Witness for X9: a January symbol read on 2026-01-05. *)
Lemma parsed_expiry_is_not_past_witness :
  let d := mkdate 2026 1 20 in
  1 <= month d <= 12 ∧ 1 <= day d <= days_in_month (year d) (month d) ∧
  ((year d = year sample_today ∧
    (month sample_today < month d ∨ (month d = month sample_today ∧ day sample_today <= day d)))
   ∨ (year d = year sample_today + 1 ∧
      (month d < month sample_today ∨ (month d = month sample_today ∧ day d < day sample_today)))).
Proof.
  apply (parsed_expiry_is_not_past sample_today "NIFTY20JAN17500CE" (mkdate 2026 1 20)).
  vm_compute; reflexivity.
Defined.

Lemma digit_char_facts (x : Z) :
  is_digit (digit_char x) = true ∧ digit_val (digit_char x) = x mod 10 ∧
  digit_char x ≠ " "%char ∧ digit_char x ≠ "-"%char.
Proof.
  unfold digit_char.
  assert (H : 0 <= x mod 10 < 10) by (apply Z.mod_pos_bound; lia).
  destruct (x mod 10) as [|p|p]; [| |lia].
  - by vm_compute.
  - assert (Hp : (p = 1 ∨ p = 2 ∨ p = 3 ∨ p = 4 ∨ p = 5 ∨ p = 6 ∨ p = 7 ∨ p = 8 ∨ p = 9)%positive)
      by lia.
    destruct Hp as [->|[->|[->|[->|[->|[->|[->|[->| ->]]]]]]]]; by vm_compute.
Qed.

Lemma strptime_isoformat (d : date) :
  make_date (year d) (month d) (day d) = Ok d → strptime_ymd (isoformat d) = Ok d.
Proof.
  intros Hd. pose proof (make_date_ok _ _ _ _ Hd) as (_ & Hy & Hm & Hday).
  assert (Hday31 : day d <= 31).
  { unfold days_in_month in Hday.
    repeat match goal with H : context [if ?b then _ else _] |- _ => destruct b end; lia. }
  assert (Hcs : list_ascii_of_string (isoformat d) =
                [digit_char (year d / 1000); digit_char (year d / 100);
                 digit_char (year d / 10); digit_char (year d); "-"%char;
                 digit_char (month d / 10); digit_char (month d); "-"%char;
                 digit_char (day d / 10); digit_char (day d)]) by reflexivity.
  unfold strptime_ymd. rewrite Hcs. clear Hcs.
  destruct (digit_char_facts (year d / 1000)) as (Hi1 & Hv1 & _ & _).
  destruct (digit_char_facts (year d / 100)) as (Hi2 & Hv2 & _ & _).
  destruct (digit_char_facts (year d / 10)) as (Hi3 & Hv3 & _ & _).
  destruct (digit_char_facts (year d)) as (Hi4 & Hv4 & _ & _).
  destruct (digit_char_facts (month d / 10)) as (Hi5 & Hv5 & _ & _).
  destruct (digit_char_facts (month d)) as (Hi6 & Hv6 & _ & _).
  destruct (digit_char_facts (day d / 10)) as (Hi7 & Hv7 & Hs7 & _).
  destruct (digit_char_facts (day d)) as (Hi8 & Hv8 & _ & _).
  set (c1 := digit_char (year d / 1000)) in *. set (c2 := digit_char (year d / 100)) in *.
  set (c3 := digit_char (year d / 10)) in *. set (c4 := digit_char (year d)) in *.
  set (c5 := digit_char (month d / 10)) in *. set (c6 := digit_char (month d)) in *.
  set (c7 := digit_char (day d / 10)) in *. set (c8 := digit_char (day d)) in *.
  clearbody c1 c2 c3 c4 c5 c6 c7 c8.
  cbn [take drop span]. rewrite Hi5, Hi6.
  change (is_digit "-"%char) with false. cbn iota beta. cbn [take drop].
  destruct (Ascii.eqb_spec c7 " ") as [He|_]; [done|].
  rewrite (bool_decide_eq_false_2 ([c7] = [" "%char])) by congruence.
  rewrite !bool_decide_eq_true_2 by done.
  cbn [length forallb digits_value fold_left Nat.eqb orb andb].
  rewrite Hi1, Hi2, Hi3, Hi4, Hi7, Hi8, Hv1, Hv2, Hv3, Hv4, Hv5, Hv6, Hv7, Hv8.
  cbn [andb].
  assert (Hmv : 10 * (10 * 0 + month d / 10 mod 10) + month d mod 10 = month d)
    by (Z.div_mod_to_equations; lia).
  assert (Hdv : 10 * (10 * 0 + day d / 10 mod 10) + day d mod 10 = day d)
    by (Z.div_mod_to_equations; lia).
  assert (Hyv : 10 * (10 * (10 * (10 * 0 + year d / 1000 mod 10) + year d / 100 mod 10)
                      + year d / 10 mod 10) + year d mod 10 = year d)
    by (Z.div_mod_to_equations; lia).
  rewrite Hmv, Hdv, Hyv.
  replace (1 <=? month d) with true by (symmetry; apply Z.leb_le; lia).
  replace (month d <=? 12) with true by (symmetry; apply Z.leb_le; lia).
  replace (1 <=? day d) with true by (symmetry; apply Z.leb_le; lia).
  replace (day d <=? 31) with true by (symmetry; apply Z.leb_le; lia).
  done.
Qed.

(** X10. An expiry that the catalog gives as a date, as a datetime or as the
    ISO string of a day of the calendar is taken as that day, whatever the
    trading symbol and the current date are. *)
Theorem catalog_expiry_is_taken_as_listed
        (today : date) (ts : string) (d : date) (t : daytime) :
  make_date (year d) (month d) (day d) = Ok d →
  entry_expiry today ts (PDate d) = Ok (Some d) ∧
  entry_expiry today ts (PDateTime d t) = Ok (Some d) ∧
  entry_expiry today ts (PStr (isoformat d)) = Ok (Some d).
Proof.
  intros Hd. split; [done|]. split; [done|].
  unfold entry_expiry. change (truthy (PStr (isoformat d))) with true.
  cbn iota. by rewrite (strptime_isoformat d Hd).
Qed.

(** Witness for X10: 2026-01-20. *)
Lemma catalog_expiry_is_taken_as_listed_witness :
  entry_expiry sample_today "NIFTY" (PDate (mkdate 2026 1 20)) = Ok (Some (mkdate 2026 1 20)) ∧
  entry_expiry sample_today "NIFTY" (PDateTime (mkdate 2026 1 20) (mktime 0 0 0 0))
    = Ok (Some (mkdate 2026 1 20)) ∧
  entry_expiry sample_today "NIFTY" (PStr (isoformat (mkdate 2026 1 20)))
    = Ok (Some (mkdate 2026 1 20)).
Proof.
  apply (catalog_expiry_is_taken_as_listed sample_today "NIFTY" (mkdate 2026 1 20)
           (mktime 0 0 0 0)).
  reflexivity.
Defined.

(** ** The index and the metadata *)

Lemma py_int_nonzero_truthy v k : py_int v = Ok k → k ≠ 0 → truthy v = true.
Proof.
  destruct v as [|b|z|f|str| | |]; cbn; try done.
  - destruct b; [done|]. by intros [= <-].
  - intros [= ->] Hk. by apply negb_true_iff, Z.eqb_neq.
  - unfold int_of_float, float_is_zero. destruct (Prim2SF f); try done.
    by intros [= <-].
  - destruct str; [|done]. by vm_compute.
Qed.

(** What one pass of the loop does to the index and the metadata: nothing,
    or one insertion in each for an accepted entry. *)
Lemma index_entry_inv today inst acc acc' :
  index_entry today inst acc = Ok acc' →
  (t_index acc' = t_index acc ∧ t_token_meta acc' = t_token_meta acc)
  ∨ ∃ und k opt exp tok ts,
      entry_accepted today inst und k opt exp tok ts ∧
      t_index acc' = <[(und, k, opt, exp) := inst]> (t_index acc) ∧
      t_token_meta acc' = <[tok := mkmeta exp k opt ts]> (t_token_meta acc).
Proof.
  unfold index_entry, mbind, result_bind, fmap, result_fmap.
  destruct (py_get inst "tradingsymbol" PNone) as [v_sym|] eqn:Hsym; [|done].
  destruct (py_upper (py_or v_sym (PStr ""))) as [ts|] eqn:Hts; [|done].
  destruct (py_get inst "strike" PNone) as [v_strike|] eqn:Hstrike; [|done].
  assert (Hskip : ∀ r : result nfo_tables,
             (if truthy v_strike
              then match py_int v_strike with Ok a => Ok (Some a) | Raise e => Raise e end
              else Ok None) ≫= (λ _ : option Z, r) = Ok acc' → r = Ok acc' ∨ False).
  { intros r. unfold mbind, result_bind.
    destruct (truthy v_strike); [destruct (py_int v_strike)|]; by left. }
  destruct (py_get inst "option_type" PNone) as [v_opt|] eqn:Hopt.
  2: { by destruct (truthy v_strike); [destruct (py_int v_strike)|]. }
  destruct (py_upper (py_or v_opt (PStr ""))) as [opt|] eqn:Hupper.
  2: { by destruct (truthy v_strike); [destruct (py_int v_strike)|]. }
  destruct (py_get inst "expiry" PNone) as [v_exp|] eqn:Hexp.
  2: { by destruct (truthy v_strike); [destruct (py_int v_strike)|]. }
  destruct (entry_expiry today ts v_exp) as [exp|] eqn:Hentry.
  2: { by destruct (truthy v_strike); [destruct (py_int v_strike)|]. }
  destruct (py_get inst "name" PNone) as [v_name|] eqn:Hname.
  2: { by destruct (truthy v_strike); [destruct (py_int v_strike)|]. }
  destruct (py_upper (py_or v_name (PStr ""))) as [und|] eqn:Hund.
  2: { by destruct (truthy v_strike); [destruct (py_int v_strike)|]. }
  clear Hskip.
  destruct (truthy v_strike) eqn:Htruthy.
  2: { intros [= <-]. by left. }
  destruct (py_int v_strike) as [k|] eqn:Hint; [|done].
  destruct exp as [exp|].
  2: { intros [= <-]. by left. }
  destruct (String.eqb_spec und "") as [|Hu]; cbn [negb andb].
  { intros [= <-]. by left. }
  destruct (Z.eqb_spec k 0) as [|Hk]; cbn [negb andb].
  { intros [= <-]. by left. }
  destruct (String.eqb_spec opt "") as [|Ho]; cbn [negb andb].
  { intros [= <-]. by left. }
  destruct (py_getitem inst "instrument_token") as [v_tok|] eqn:Htok; [|done].
  destruct (py_int v_tok) as [tok|] eqn:Htok0; [|done].
  intros [= <-]. right. exists und, k, opt, exp, tok, ts.
  split; [|done]. split; [|by rewrite Hname; cbn; rewrite Hund].
  exists v_sym, v_strike, v_opt, v_exp.
  cbn [m_tradingsymbol m_strike m_opt_type m_expiry].
  rewrite Htok. cbn. by rewrite Htok0.
Qed.

(** An accepted entry is inserted under its key and its token. *)
Lemma index_entry_accepts today inst und k opt exp tok ts acc :
  entry_accepted today inst und k opt exp tok ts →
  ∃ acc', index_entry today inst acc = Ok acc' ∧
          t_index acc' = <[(und, k, opt, exp) := inst]> (t_index acc) ∧
          t_token_meta acc' = <[tok := mkmeta exp k opt ts]> (t_token_meta acc).
Proof.
  intros ((v_sym & v_strike & v_opt & v_exp & Hsym & Hts & Hstrike & Hint & Hopt & Hupper
           & Hexp & Hentry & Htok) & Hname & Hu & Hk & Ho).
  cbn [m_tradingsymbol m_strike m_opt_type m_expiry] in *.
  unfold index_entry. unfold mbind, result_bind, fmap, result_fmap in *.
  rewrite Hsym, Hts, Hstrike, (py_int_nonzero_truthy _ _ Hint Hk), Hint, Hopt, Hupper,
    Hexp, Hentry.
  destruct (py_get inst "name" PNone) as [v_name|]; [|done]. rewrite Hname.
  destruct (String.eqb_spec und "") as [|_]; [done|].
  destruct (Z.eqb_spec k 0) as [|_]; [done|].
  destruct (String.eqb_spec opt "") as [|_]; [done|]. cbn [negb andb].
  destruct (py_getitem inst "instrument_token") as [v_tok|]; [|done]. rewrite Htok.
  by eexists.
Qed.

Lemma accepted_same_token today inst und k opt exp tok ts und' k' opt' exp' tok' ts' :
  entry_accepted today inst und k opt exp tok ts →
  entry_accepted today inst und' k' opt' exp' tok' ts' →
  (und, k, opt, exp) = (und', k', opt', exp') ∧ tok = tok' ∧ ts = ts'.
Proof.
  intros ((v1 & v2 & v3 & v4 & H1 & H2 & H3 & H4 & H5 & H6 & H7 & H8 & H9) & Hn & _)
         ((w1 & w2 & w3 & w4 & G1 & G2 & G3 & G4 & G5 & G6 & G7 & G8 & G9) & Gn & _).
  cbn [m_tradingsymbol m_strike m_opt_type m_expiry] in *.
  rewrite H1 in G1. injection G1 as <-. rewrite H2 in G2. injection G2 as <-.
  rewrite H3 in G3. injection G3 as <-. rewrite H4 in G4. injection G4 as <-.
  rewrite H5 in G5. injection G5 as <-. rewrite H6 in G6. injection G6 as <-.
  rewrite H7 in G7. injection G7 as <-. rewrite H8 in G8. injection G8 as <-.
  rewrite H9 in G9. injection G9 as <-. rewrite Hn in Gn. by injection Gn as <-.
Qed.

Lemma index_entry_step today seen inst acc acc' :
  tables_from today seen acc →
  index_entry today inst acc = Ok acc' →
  tables_from today (seen ++ [inst]) acc'.
Proof.
  intros (Hidx & Hmeta & Hall) Hstep.
  assert (Hnew : ∀ und k opt exp tok ts,
             entry_accepted today inst und k opt exp tok ts →
             is_Some (t_index acc' !! (und, k, opt, exp)) ∧
             is_Some (t_token_meta acc' !! tok)).
  { intros und k opt exp tok ts Hi.
    destruct (index_entry_accepts _ _ _ _ _ _ _ _ acc Hi) as (a & Ha & Hai & Ham).
    rewrite Hstep in Ha. injection Ha as <-.
    rewrite Hai, Ham, !lookup_insert_eq. by split; eexists. }
  unfold tables_from.
  destruct (index_entry_inv _ _ _ _ Hstep)
    as [[Hi Hm]|(und0 & k0 & opt0 & exp0 & tok0 & ts0 & Hacc & Hi & Hm)];
    rewrite Hi, Hm in Hnew |- *; clear Hi Hm.
  - split; [|split].
    + intros und k opt exp i Hlook.
      destruct (Hidx _ _ _ _ _ Hlook) as (Hin & H). split; [|done].
      apply elem_of_app. by left.
    + intros tok m Hlook. destruct (Hmeta _ _ Hlook) as (i & und & Hin & H).
      exists i, und. split; [|done]. apply elem_of_app. by left.
    + intros i und k opt exp tok ts [Hin|Hin%list_elem_of_singleton]%elem_of_app Hi.
      * by apply (Hall i _ _ _ _ _ ts).
      * subst i. by apply (Hnew _ _ _ _ _ ts).
  - split; [|split].
    + intros und k opt exp i Hlook.
      apply lookup_insert_Some in Hlook as [[[= <- <- <- <-] <-]|[_ Hlook]].
      * split; [apply elem_of_app; right; by left|].
        exists tok0, ts0. split; [done|]. rewrite lookup_insert_eq. by eexists.
      * destruct (Hidx _ _ _ _ _ Hlook) as (Hin & t & s' & Ha & Hsome).
        split; [apply elem_of_app; by left|]. exists t, s'. split; [done|].
        rewrite lookup_insert. by case_decide; [eexists|].
    + intros tok m Hlook. apply lookup_insert_Some in Hlook as [[<- <-]|[_ Hlook]].
      * exists inst, und0. split; [apply elem_of_app; right; by left|done].
      * destruct (Hmeta _ _ Hlook) as (i & und & Hin & H).
        exists i, und. split; [apply elem_of_app; by left|done].
    + intros i und k opt exp tok ts [Hin|Hin%list_elem_of_singleton]%elem_of_app Hi.
      * destruct (Hall i _ _ _ _ _ _ Hin Hi) as [H1 H2].
        rewrite !lookup_insert. by split; case_decide; [eexists| |eexists|].
      * subst i. by apply (Hnew _ _ _ _ _ ts).
Qed.

Lemma build_from_tables today instruments : ∀ seen acc acc',
  tables_from today seen acc →
  build_from today instruments acc = Ok acc' →
  tables_from today (seen ++ instruments) acc'.
Proof.
  induction instruments as [|inst rest IH]; intros seen acc acc' Hacc Hbuild;
    cbn [build_from] in Hbuild.
  - injection Hbuild as <-. by rewrite app_nil_r.
  - unfold mbind, result_bind in Hbuild.
    destruct (index_entry today inst acc) as [acc1|] eqn:Hstep; [|done].
    rewrite (cons_middle inst seen rest), app_assoc.
    apply (IH _ acc1); [|done]. by eapply index_entry_step.
Qed.

Lemma build_tables today catalog tables :
  build_nfo_index_with_expiry today catalog = Ok tables → tables_from today catalog tables.
Proof.
  intros H. apply (build_from_tables today catalog [] (mktables ∅ ∅ ∅)); [|done].
  split; [|split]; cbn [t_index t_token_meta].
  - intros und k opt exp i Hl. by rewrite lookup_empty in Hl.
  - intros tok m Hl. by rewrite lookup_empty in Hl.
  - intros i und k opt exp tok ts Hin. by apply elem_of_nil in Hin.
Qed.

Lemma accepted_truthy today inst und k opt exp tok ts :
  entry_accepted today inst und k opt exp tok ts → truthy inst = true.
Proof.
  intros ((_ & v & _ & _ & _ & _ & _ & _ & _ & _ & _ & _ & Htok) & _).
  unfold mbind, result_bind in Htok.
  destruct inst as [| | | | | | |items]; try done. by destruct items.
Qed.

(** X11. A lookup in the built index answers with a listed instrument: when
    [resolve_option] returns a token and a symbol for a key, the catalog
    has an entry that the build accepted with exactly that underlying,
    strike, option type and expiry, the token is that entry's
    [instrument_token], the symbol its [tradingsymbol] as listed, and
    [token_meta] has the metadata of that token. *)
Theorem resolved_option_is_a_listed_instrument
        (today : date) (catalog : list pyval) (tables : nfo_tables)
        (und : string) (k : Z) (opt : string) (exp : date) (tok : Z) (tsym : pyval) :
  build_nfo_index_with_expiry today catalog = Ok tables →
  resolve_option (t_index tables) und k opt exp = Ok (Some (tok, tsym)) →
  ∃ inst ts,
    inst ∈ catalog ∧
    entry_accepted today inst und k opt exp tok ts ∧
    py_getitem inst "tradingsymbol" = Ok tsym ∧
    is_Some (t_token_meta tables !! tok).
Proof.
  intros Hbuild Hres. destruct (build_tables _ _ _ Hbuild) as (Hidx & _ & _).
  unfold resolve_option in Hres.
  destruct (t_index tables !! (und, k, opt, exp)) as [inst|] eqn:Hlook; [|done].
  destruct (Hidx _ _ _ _ _ Hlook) as (Hin & tok' & ts & Hacc & Hsome).
  destruct (truthy inst); [|done].
  pose proof Hacc as ((_ & _ & _ & _ & _ & _ & _ & _ & _ & _ & _ & _ & Htok) & _).
  rewrite Htok in Hres. cbn in Hres.
  destruct (py_getitem inst "tradingsymbol") as [v|] eqn:Hsym; [|done].
  injection Hres as <- <-. by exists inst, ts.
Qed.

(** Witness for X11: the 17400 call of 20 January in the sample catalog. *)
Lemma resolved_option_is_a_listed_instrument_witness :
  ∃ inst ts,
    inst ∈ sample_catalog ∧
    entry_accepted sample_today inst "NIFTY" 17400 "CE" (mkdate 2026 1 20) 1 ts ∧
    py_getitem inst "tradingsymbol" = Ok (PStr "NIFTY20JAN17400CE") ∧
    is_Some (t_token_meta sample_tables !! 1).
Proof.
  apply (resolved_option_is_a_listed_instrument sample_today sample_catalog sample_tables);
    by vm_compute.
Defined.

(** X12. A key is unresolved exactly when nothing is listed under it: on a
    built index [resolve_option] returns [(None, None)] for a key if and
    only if the catalog has no accepted entry with that underlying, strike,
    option type and expiry. *)
Theorem unresolved_option_is_unlisted
        (today : date) (catalog : list pyval) (tables : nfo_tables)
        (und : string) (k : Z) (opt : string) (exp : date) :
  build_nfo_index_with_expiry today catalog = Ok tables →
  resolve_option (t_index tables) und k opt exp = Ok None
  ↔ ¬ ∃ inst tok ts, inst ∈ catalog ∧ entry_accepted today inst und k opt exp tok ts.
Proof.
  intros Hbuild. destruct (build_tables _ _ _ Hbuild) as (Hidx & _ & Hall).
  unfold resolve_option. split.
  - intros Hres (inst & tok & ts & Hin & Hacc).
    destruct (Hall _ _ _ _ _ _ _ Hin Hacc) as [[inst' Hlook] _].
    rewrite Hlook in Hres.
    destruct (Hidx _ _ _ _ _ Hlook) as (_ & tok' & ts' & Hacc' & _).
    rewrite (accepted_truthy _ _ _ _ _ _ _ _ Hacc') in Hres.
    pose proof Hacc' as ((_ & _ & _ & _ & _ & _ & _ & _ & _ & _ & _ & _ & Htok) & _).
    rewrite Htok in Hres. cbn in Hres.
    by destruct (py_getitem inst' "tradingsymbol").
  - intros Hnone.
    destruct (t_index tables !! (und, k, opt, exp)) as [inst|] eqn:Hlook; [|done].
    destruct (Hidx _ _ _ _ _ Hlook) as (Hin & tok & ts & Hacc & _).
    destruct Hnone. by exists inst, tok, ts.
Qed.

(** Witness for X12: no put of 20 January at 17425 is listed in the sample
    catalog. *)
Lemma unresolved_option_is_unlisted_witness :
  resolve_option (t_index sample_tables) "NIFTY" 17425 "PE" (mkdate 2026 1 20) = Ok None
  ↔ ¬ ∃ inst tok ts, inst ∈ sample_catalog
                      ∧ entry_accepted sample_today inst "NIFTY" 17425 "PE"
                                       (mkdate 2026 1 20) tok ts.
Proof.
  apply (unresolved_option_is_unlisted sample_today sample_catalog sample_tables).
  by vm_compute.
Defined.

(** X13. An option row never has an empty enrichment column when the token
    has metadata from the build: the strike written is a non-zero integer,
    the option type and the expiry are non-empty, and all three come from
    one accepted catalog entry with that token. *)
Theorem enriched_row_has_no_empty_field
        (today : date) (catalog : list pyval) (tables : nfo_tables)
        (s : state) (d : date) (t : daytime) (tok : Z) (tsym ltp : pyval) (m : option_meta) :
  build_nfo_index_with_expiry today catalog = Ok tables →
  option_meta_by_token s = t_token_meta tables →
  t_token_meta tables !! tok = Some m →
  ∃ r, record_tick (Stamp d t) tok tsym "OPT" ltp s = (Ok tt, add_row r s) ∧
       r_strike r = PInt (m_strike m) ∧ m_strike m ≠ 0 ∧
       r_option_type r = m_opt_type m ∧ r_option_type r ≠ "" ∧
       r_expiry r = isoformat (m_expiry m) ∧ r_expiry r ≠ "" ∧
       ∃ inst und, inst ∈ catalog ∧
                   entry_accepted today inst und (m_strike m) (m_opt_type m) (m_expiry m)
                                  tok (m_tradingsymbol m).
Proof.
  intros Hbuild Hs Hm. destruct (build_tables _ _ _ Hbuild) as (_ & Hmeta & _).
  destruct (Hmeta _ _ Hm) as (inst & und & Hin & Hacc).
  pose proof Hacc as (_ & _ & _ & Hk & Ho).
  eexists. split; [apply record_tick_opt; by rewrite Hs|].
  cbn [r_strike r_option_type r_expiry]. do 6 (split; [done|]).
  by exists inst, und.
Qed.

(** Witness for X13: token 1 of the sample catalog. *)
Lemma enriched_row_has_no_empty_field_witness :
  ∃ r, record_tick sample_stamp 1 (PStr "NIFTY20JAN17400CE") "OPT" (PFloat 101.5) sample_state
         = (Ok tt, add_row r sample_state) ∧
       r_strike r = PInt 17400 ∧ 17400 ≠ 0 ∧
       r_option_type r = "CE" ∧ r_option_type r ≠ "" ∧
       r_expiry r = "2026-01-20" ∧ r_expiry r ≠ "" ∧
       ∃ inst und, inst ∈ sample_catalog ∧
                   entry_accepted sample_today inst und 17400 "CE" (mkdate 2026 1 20)
                                  1 "NIFTY20JAN17400CE".
Proof.
  apply (enriched_row_has_no_empty_field sample_today sample_catalog sample_tables
           sample_state _ _ 1 _ _ (mkmeta (mkdate 2026 1 20) 17400 "CE" "NIFTY20JAN17400CE"));
    by vm_compute.
Defined.

(** ** What a session keeps *)

Lemma for_each_inv {S A B} (I : B → S → Prop) (body : A → B → exec S B) (l : list A) :
  (∀ x acc s, I acc s → ∀ acc' s', body x acc s = (Ok acc', s') → I acc' s') →
  ∀ acc s, I acc s → ∀ acc' s', for_each l body acc s = (Ok acc', s') → I acc' s'.
Proof.
  intros Hbody. induction l as [|x l IH]; intros acc s Hacc acc' s' H; cbn [for_each] in H.
  - by injection H as <- <-.
  - unfold mbind, exec_bind in H.
    destruct (body x acc s) as [[acc1|e] s1] eqn:Hb; [|done].
    apply (IH acc1 s1); [|done]. by apply (Hbody x acc s).
Qed.

(** The loops of [update_option_band] record a trading symbol for every
    token they put in the new band. *)
Lemma resolve_into_named und st opt exp acc s acc' s' :
  (∀ tok, tok ∈ acc → is_Some (token_to_sym s !! tok)) →
  resolve_into und st opt exp acc s = (Ok acc', s') →
  ∀ tok, tok ∈ acc' → is_Some (token_to_sym s' !! tok).
Proof.
  intros Hacc.
  unfold resolve_into, mbind, exec_bind, gets, lift, modify, mret, exec_ret.
  destruct (resolve_option _ und st opt exp) as [[[tok tsym]|]|e]; [| |done].
  - destruct (tok =? 0); intros [= <- <-]; [done|].
    intros t Ht. cbn [token_to_sym set_token_sym]. rewrite lookup_insert.
    case_decide; [by eexists|]. apply Hacc.
    apply elem_of_union in Ht as [Ht%elem_of_singleton|Ht]; [congruence|done].
  - by intros [= <- <-].
Qed.

Lemma resolve_band_named und strikes s new s' :
  resolve_band und strikes s = (Ok new, s') →
  ∀ tok, tok ∈ new → is_Some (token_to_sym s' !! tok).
Proof.
  unfold resolve_band. intros H.
  set (I := λ (acc : gset Z) (s : state), ∀ tok, tok ∈ acc → is_Some (token_to_sym s !! tok)).
  refine (for_each_inv I _ _ _ ∅ s _ new s' H).
  - intros st acc1 s1 H1 acc1' s1' Hst.
    refine (for_each_inv I _ _ _ acc1 s1 H1 acc1' s1' Hst).
    intros opt acc2 s2 H2 acc2' s2' Hopt.
    refine (for_each_inv I _ _ _ acc2 s2 H2 acc2' s2' Hopt).
    intros exp acc3 s3 H3 acc3' s3' Hexp.
    exact (resolve_into_named und st opt exp acc3 s3 acc3' s3' H3 Hexp).
  - by intros tok Htok%elem_of_empty.
Qed.

Lemma round_to_strike_multiple p k : round_to_strike p = Some k → k mod 50 = 0.
Proof.
  unfold round_to_strike, mbind, result_bind.
  destruct (py_truediv p STRIKE_STEP) as [q|]; [|done].
  destruct (py_round q) as [r|]; [|done]. intros [= <-].
  change (Z.pos STRIKE_STEP) with 50. apply Z_mod_mult.
Qed.

(** The three outcomes of [update_option_band]: only trading symbols are
    added (the strike is the same, or the call raised), or the band moves to
    the strike [k]. *)
Lemma update_option_band_cases und p s :
  let s' := (update_option_band und p s).2 in
  let cur := current_option_tokens s in
  (∃ syms, (∀ tok : Z, syms !! tok = None → token_to_sym s !! tok = None)
           ∧ s' = with_syms syms s)
  ∨ ∃ k syms new,
      round_to_strike p = Some k ∧
      (∀ tok : Z, syms !! tok = None → token_to_sym s !! tok = None) ∧
      band_of_index (_nfo_index_by_key s) und {[k; k - 50; k + 50; k - 100; k + 100]}
        = Ok new ∧
      (∀ tok, tok ∈ new → is_Some (syms !! tok)) ∧
      s' = set_band (Some k) new
             (subscribe_tokens (elements (new ∖ cur))
                (unsubscribe_tokens (elements (cur ∖ new)) (with_syms syms s)).2).2.
Proof.
  cbn zeta.
  assert (Hsame : with_syms (token_to_sym s) s = s) by by destruct s.
  destruct (decide (round_to_strike p = current_atm_strike s)) as [Heq|Hnew].
  { rewrite (update_same_strike und p s Heq). left. by exists (token_to_sym s). }
  destruct (round_to_strike p) as [k|] eqn:Hk.
  2: { rewrite (update_no_strike und p s Hk) by congruence.
       left. by exists (token_to_sym s). }
  destruct (resolve_band_spec und {[k; k - 50; k + 50; k - 100; k + 100]} s)
    as (m & Hloop & Hm).
  pose proof (resolve_band_named und {[k; k - 50; k + 50; k - 100; k + 100]} s) as Hnamed.
  rewrite Hloop in Hnamed.
  unfold update_option_band, mbind, exec_bind, gets, lift.
  rewrite bool_decide_eq_false_2 by congruence. rewrite Hk. cbn [band_strikes].
  rewrite Hloop.
  destruct (band_of_index _ und _) as [new|e] eqn:Hband.
  - right. exists k, m, new. do 3 (split; [done|]).
    split; [exact (Hnamed new _ eq_refl)|].
    cbn [current_option_tokens with_syms].
    rewrite !unsubscribe_tokens_spec. cbn [fst snd].
    rewrite !subscribe_tokens_spec. cbn [fst snd]. done.
  - left. by exists m.
Qed.

(** The state that [on_tick] leaves: untouched, with one more row, or with
    one more row and the band updated. *)
Lemma on_tick_state td now t s :
  let s' := (on_tick td now t s).2 in
  s' = s ∨ ∃ row, s' = add_row row s
                  ∨ ∃ ltp, s' = (update_option_band "NIFTY" ltp (add_row row s)).2.
Proof.
  cbn zeta. unfold on_tick, mbind at 1 2 3 4 5 6, exec_bind, lift, gets.
  destruct (py_get t "instrument_token" (PInt 0) ≫= _) as [tok|e]; [|by left].
  destruct (py_get t "last_price" PNone) as [ltp|e]; [|by left].
  destruct (_extract_tick_ts td now t) as [ts|e]; [|by left].
  unfold record_tick, mbind, exec_bind, lift, gets, modify.
  destruct (strftime_ms ts) as [stamp|e]; [|by left].
  set (row := mkrow stamp tok _ _ ltp _ _ _). clearbody row.
  right. exists row. destruct (bool_decide (tok ∈ spot_tokens s)).
  - right. by exists ltp.
  - by left.
Qed.

(** A property of the globals that the three state changes of the callbacks
    keep holds throughout a session. *)
Lemma session_preserves td (P : state → Prop) :
  (∀ s row, P s → P (add_row row s)) →
  (∀ s p, P s → P (update_option_band "NIFTY" p s).2) →
  (∀ s l, P s → P (subscribe_tokens l s).2) →
  ∀ cs s, P s → P (session td cs s).
Proof.
  intros Hrow Hupd Hsub.
  assert (Htick : ∀ now t s, P s → P (on_tick td now t s).2).
  { intros now t s Hs.
    destruct (on_tick_state td now t s) as [->|(row & [->|(ltp & ->)])]; [done|by apply Hrow|].
    by apply Hupd, Hrow. }
  assert (Hticks : ∀ clock ticks i s, P s → P (on_ticks_from td clock i ticks s).2).
  { intros clock ticks. induction ticks as [|t ticks IH]; intros i s Hs; [done|].
    cbn [on_ticks_from]. unfold mbind, exec_bind.
    specialize (Htick (clock i) t s Hs).
    destruct (on_tick td (clock i) t s) as [[[]|e] s1]; [|done].
    by apply IH. }
  intros cs. induction cs as [|c cs IH]; intros s Hs; [done|].
  cbn [session fold_left]. apply IH. destruct c as [|clock ticks]; cbn [handle].
  - unfold on_connect, mbind, exec_bind, gets.
    pose proof (Hsub s (spot_tokens s) Hs) as H1.
    rewrite subscribe_tokens_spec in H1 |- *. cbn [snd] in H1.
    specialize (Hsub _ [] H1). by rewrite subscribe_tokens_spec in Hsub |- *.
  - by apply Hticks.
Qed.

Lemma replay_app (calls1 calls2 : list ws_call) : ∀ feed,
  replay feed (calls1 ++ calls2) = replay feed calls1 ≫= λ feed', replay feed' calls2.
Proof.
  induction calls1 as [|c calls1 IH]; intros feed; [done|].
  cbn [app replay]. by destruct c; case_bool_decide.
Qed.

Lemma feed_follows_refl s : feed_follows s s.
Proof. exists []. by rewrite app_nil_r. Qed.

Lemma feed_follows_trans s1 s2 s3 :
  feed_follows s1 s2 → feed_follows s2 s3 → feed_follows s1 s3.
Proof.
  intros (n1 & Hc1 & Hr1) (n2 & Hc2 & Hr2). exists (n1 ++ n2).
  split; [by rewrite Hc2, Hc1, app_assoc|]. by rewrite replay_app, Hr1.
Qed.

Lemma subscribe_tokens_follows l s : feed_follows s (subscribe_tokens l s).2.
Proof.
  unfold subscribe_tokens, modify. cbn [snd].
  pose proof (λ x, proj1 (list_elem_of_filter (λ x, x ∉ subscribed_tokens s) l x)) as Hin.
  destruct (filter _ l) as [|y t]; [apply feed_follows_refl|].
  eexists. split; [done|]. cbn [replay subscribed_tokens set_subscribed].
  rewrite bool_decide_eq_true_2.
  2: { split; [done|]. apply Forall_forall. intros x Hx. by apply Hin. }
  rewrite bool_decide_eq_true_2; [done|].
  split; [done|]. apply Forall_forall. intros x Hx.
  apply elem_of_union. right. by apply elem_of_list_to_set.
Qed.

Lemma unsubscribe_tokens_follows l s : feed_follows s (unsubscribe_tokens l s).2.
Proof.
  unfold unsubscribe_tokens, modify. cbn [snd].
  pose proof (λ x, proj1 (list_elem_of_filter (λ x, x ∈ subscribed_tokens s) l x)) as Hin.
  destruct (filter _ l) as [|y t]; [apply feed_follows_refl|].
  eexists. split; [done|]. cbn [replay subscribed_tokens set_subscribed].
  rewrite bool_decide_eq_true_2.
  2: { split; [done|]. apply Forall_forall. intros x Hx. by apply Hin. }
  by rewrite discard_all.
Qed.

Lemma feed_follows_same s s1 s2 :
  ws_calls s2 = ws_calls s1 → subscribed_tokens s2 = subscribed_tokens s1 →
  feed_follows s s1 → feed_follows s s2.
Proof. intros Hc Hs (n & Hn & Hr). exists n. by rewrite Hc, Hs. Qed.

Lemma update_option_band_follows und p s : feed_follows s (update_option_band und p s).2.
Proof.
  destruct (update_option_band_cases und p s)
    as [(m & _ & ->)|(k & m & new & _ & _ & _ & _ & ->)].
  - by apply (feed_follows_same s s); [..|apply feed_follows_refl].
  - eapply feed_follows_same; [done..|].
    eapply feed_follows_trans; [|apply subscribe_tokens_follows].
    eapply feed_follows_trans; [|apply unsubscribe_tokens_follows].
    by apply (feed_follows_same s s); [..|apply feed_follows_refl].
Qed.

(** X14. The recorder never makes a needless call, and its active set is
    what the feed holds: over any run of callbacks from any state, the
    calls made, replayed on a feed that holds the tokens active at the
    start, never carry an empty list, never subscribe a token the feed
    holds, never unsubscribe or set the mode of a token it does not hold,
    and leave the feed holding exactly [subscribed_tokens]. *)
Theorem feed_calls_follow_the_active_set
        (to_datetime : pyval → result timestamp) (cs : list callback) (s : state) :
  let s' := session to_datetime cs s in
  ∃ new, ws_calls s' = ws_calls s ++ new ∧
         replay (subscribed_tokens s) new = Some (subscribed_tokens s').
Proof.
  cbn zeta. apply (session_preserves to_datetime (feed_follows s)).
  - intros s1 row. by apply feed_follows_same.
  - intros s1 p H. eapply feed_follows_trans; [done|apply update_option_band_follows].
  - intros s1 l H. eapply feed_follows_trans; [done|apply subscribe_tokens_follows].
  - apply feed_follows_refl.
Qed.

Lemma mono_is_Some (syms old : gmap Z pyval) :
  (∀ tok : Z, syms !! tok = None → old !! tok = None) →
  ∀ tok : Z, is_Some (old !! tok) → is_Some (syms !! tok).
Proof.
  intros Hm tok [v Hv]. destruct (syms !! tok) eqn:H; [by eexists|].
  rewrite (Hm tok H) in Hv. done.
Qed.

Lemma only_grows_refl s : only_grows s s.
Proof. by repeat split. Qed.

Lemma only_grows_trans s1 s2 s3 : only_grows s1 s2 → only_grows s2 s3 → only_grows s1 s3.
Proof.
  intros (Hi1 & Hm1 & Hs1 & Hr1 & Hn1) (Hi2 & Hm2 & Hs2 & Hr2 & Hn2).
  split; [congruence|]. split; [congruence|]. split; [congruence|].
  split; [by etrans|]. intros tok H. by apply Hn2, Hn1.
Qed.

Lemma update_option_band_grows und p s : only_grows s (update_option_band und p s).2.
Proof.
  destruct (update_option_band_frame und p s) as (Hr & Hs & Hm & Hi & Hn).
  split; [done|]. split; [done|]. split; [done|]. split; [by rewrite Hr|].
  by apply mono_is_Some.
Qed.

Lemma session_grows td cs s : only_grows s (session td cs s).
Proof.
  apply (session_preserves td (only_grows s)).
  - intros s1 row H. eapply only_grows_trans; [done|].
    split; [done|]. split; [done|]. split; [done|]. split; [|done].
    by apply prefix_app_r.
  - intros s1 p H. eapply only_grows_trans; [done|apply update_option_band_grows].
  - intros s1 l H. eapply only_grows_trans; [done|].
    rewrite subscribe_tokens_spec. by repeat split.
  - apply only_grows_refl.
Qed.

(** X15. A session only adds: over any run of callbacks from any state the
    index, the metadata and the spot tokens stay as they were, the rows
    written before stay in place as a prefix of the rows, and no trading
    symbol is forgotten. *)
Theorem session_only_adds
        (to_datetime : pyval → result timestamp) (cs : list callback) (s : state) :
  let s' := session to_datetime cs s in
  _nfo_index_by_key s' = _nfo_index_by_key s ∧
  option_meta_by_token s' = option_meta_by_token s ∧
  spot_tokens s' = spot_tokens s ∧
  csv_rows s `prefix_of` csv_rows s' ∧
  ∀ tok : Z, is_Some (token_to_sym s !! tok) → is_Some (token_to_sym s' !! tok).
Proof. exact (session_grows to_datetime cs s). Qed.

Lemma band_tracked_update p s :
  band_tracked s → band_tracked (update_option_band "NIFTY" p s).2.
Proof.
  intros (Hsub & Hnamed & Hatm).
  destruct (update_option_band_cases "NIFTY" p s)
    as [(m & Hm & ->)|(k & m & new & Hk & Hm & Hband & Hnew & ->)].
  - split; [done|]. split; [|done].
    intros tok Htok. by apply (mono_is_Some m (token_to_sym s) Hm), Hnamed.
  - rewrite unsubscribe_tokens_spec. cbn [snd]. rewrite subscribe_tokens_spec. cbn [snd].
    unfold band_tracked.
    cbn [current_option_tokens current_atm_strike subscribed_tokens token_to_sym
         _nfo_index_by_key set_band set_subscribed with_syms].
    split; [|split; [done|split]].
    + intros tok Htok.
      rewrite elem_of_union, elem_of_difference, !elem_of_list_to_set, !elem_of_elements,
        !elem_of_difference.
      destruct (decide (tok ∈ current_option_tokens s)) as [Hc|Hc]; [|by right].
      left. split; [by apply Hsub|tauto].
    + by apply (round_to_strike_multiple p).
    + by apply band_of_index_mem.
Qed.

Lemma band_tracked_session td cs s : band_tracked s → band_tracked (session td cs s).
Proof.
  apply (session_preserves td band_tracked).
  - by intros s1 row H.
  - intros s1 p. apply band_tracked_update.
  - intros s1 l (Hsub & Hnamed & Hatm). rewrite subscribe_tokens_spec.
    split; [|done]. cbn [snd current_option_tokens subscribed_tokens set_subscribed].
    intros tok Htok. apply elem_of_union. left. by apply Hsub.
Qed.

Lemma startup_fields tables spot s0 :
  startup tables spot = Ok s0 →
  _nfo_index_by_key s0 = t_index tables ∧ option_meta_by_token s0 = t_token_meta tables ∧
  spot_tokens s0 = spot ∧ ws_calls s0 = [] ∧ subscribed_tokens s0 = ∅ ∧ band_tracked s0.
Proof.
  unfold startup. destruct spot as [|tok0 spot]; [done|]. intros [= <-].
  do 5 (split; [done|]). split; [done|]. split; [|done].
  by intros tok Htok%elem_of_empty.
Qed.

Lemma startup_band td tables spot s0 cs :
  startup tables spot = Ok s0 →
  band_tracked (session td cs s0) ∧
  _nfo_index_by_key (session td cs s0) = t_index tables ∧
  option_meta_by_token (session td cs s0) = t_token_meta tables.
Proof.
  intros Hstart.
  destruct (startup_fields _ _ _ Hstart) as (Hidx & Hmeta & _ & _ & _ & H0).
  destruct (session_grows td cs s0) as (Hi & Hm & _).
  split; [by apply band_tracked_session|]. split; congruence.
Qed.

(** X16. The option band is always the band around the reference strike:
    from the globals that the main block sets and over any run of
    callbacks, every band token is in the active set and has a trading
    symbol in [token_to_sym]; while no strike is set the band is empty, and
    once one is set it is a multiple of 50 and the band holds exactly the
    non-zero tokens that the index resolves for the five strikes around
    it, calls and puts, at the tracked expiries. *)
Theorem band_is_the_band_around_the_strike
        (to_datetime : pyval → result timestamp) (tables : nfo_tables) (spot : list Z)
        (s0 : state) (cs : list callback) :
  startup tables spot = Ok s0 →
  let s := session to_datetime cs s0 in
  current_option_tokens s ⊆ subscribed_tokens s ∧
  (∀ tok, tok ∈ current_option_tokens s → is_Some (token_to_sym s !! tok)) ∧
  match current_atm_strike s with
  | None => current_option_tokens s = ∅
  | Some k =>
      k mod 50 = 0 ∧
      ∀ tok, tok ∈ current_option_tokens s ↔ in_band (t_index tables) "NIFTY" k tok
  end.
Proof.
  intros Hstart. cbn zeta.
  destruct (startup_band to_datetime _ _ _ cs Hstart) as (H & Hi & _).
  unfold band_tracked in H. by rewrite Hi in H.
Qed.

(** Witness for X16: the sample session. *)
Lemma band_is_the_band_around_the_strike_witness :
  let s := session datetime_only sample_session sample_start in
  current_option_tokens s ⊆ subscribed_tokens s ∧
  (∀ tok, tok ∈ current_option_tokens s → is_Some (token_to_sym s !! tok)) ∧
  match current_atm_strike s with
  | None => current_option_tokens s = ∅
  | Some k =>
      k mod 50 = 0 ∧
      ∀ tok, tok ∈ current_option_tokens s ↔ in_band (t_index sample_tables) "NIFTY" k tok
  end.
Proof.
  apply (band_is_the_band_around_the_strike datetime_only sample_tables [SPOT_TOKEN]
           sample_start sample_session).
  by vm_compute.
Defined.

(** X17. Every instrument of the band has its metadata: when the main block
    set the globals from the two catalogs, after any run of callbacks a
    token of the option band has an entry in [option_meta_by_token], made
    from an accepted entry of the NFO catalog with that token; so a tick of
    a band instrument is written with its expiry, strike and option type. *)
Theorem band_instruments_have_metadata
        (to_datetime : pyval → result timestamp) (today : date) (nfo nse : list pyval)
        (s0 : state) (cs : list callback) (tok : Z) :
  main_startup today nfo nse = Ok s0 →
  let s := session to_datetime cs s0 in
  tok ∈ current_option_tokens s →
  ∃ m inst und,
    option_meta_by_token s !! tok = Some m ∧ inst ∈ nfo ∧
    entry_accepted today inst und (m_strike m) (m_opt_type m) (m_expiry m)
                   tok (m_tradingsymbol m).
Proof.
  unfold main_startup, mbind, result_bind. cbn zeta.
  destruct (build_nfo_index_with_expiry today nfo) as [tables|] eqn:Hbuild; [|done].
  destruct (find_spot_tokens nse) as [spot|]; [|done]. intros Hstart Htok.
  destruct (build_tables _ _ _ Hbuild) as (Hidx & Hmeta & _).
  destruct (startup_band to_datetime _ _ _ cs Hstart) as ((_ & _ & Hband) & Hi & Hm).
  rewrite Hi in Hband. rewrite Hm.
  destruct (current_atm_strike (session to_datetime cs s0)) as [k|].
  2: { rewrite Hband in Htok. by apply elem_of_empty in Htok. }
  destruct Hband as [_ Hband].
  apply Hband in Htok as (d & opt & exp & tsym & _ & _ & _ & Hres & _).
  unfold resolve_option in Hres.
  destruct (t_index tables !! ("NIFTY", k + 50 * d, opt, exp)) as [inst|] eqn:Hlook; [|done].
  destruct (Hidx _ _ _ _ _ Hlook) as (_ & tok' & ts & Hacc & [m Hsome]).
  destruct (truthy inst); [|done].
  pose proof Hacc as ((_ & _ & _ & _ & _ & _ & _ & _ & _ & _ & _ & _ & Htok') & _).
  rewrite Htok' in Hres. cbn in Hres.
  destruct (py_getitem inst "tradingsymbol"); [|done]. injection Hres as -> _.
  destruct (Hmeta _ _ Hsome) as (inst' & und & Hin & Hacc').
  by exists m, inst', und.
Qed.

(** Witness for X17: token 3, the 17500 call, after the sample session. *)
Lemma band_instruments_have_metadata_witness :
  ∃ m inst und,
    option_meta_by_token (session datetime_only sample_session sample_start) !! 3 = Some m ∧
    inst ∈ sample_catalog ∧
    entry_accepted sample_today inst und (m_strike m) (m_opt_type m) (m_expiry m)
                   3 (m_tradingsymbol m).
Proof.
  apply (band_instruments_have_metadata datetime_only sample_today sample_catalog sample_nse
           sample_start sample_session 3); by vm_compute.
Defined.

(** ** Connecting and moving the band *)

Lemma subscribe_nothing l s :
  (∀ x, x ∈ l → x ∈ subscribed_tokens s) → subscribe_tokens l s = (Ok tt, s).
Proof.
  intros Hl. unfold subscribe_tokens, modify.
  assert (filter (λ x, x ∉ subscribed_tokens s) l = []) as ->; [|done].
  induction l as [|x l IH]; [done|].
  rewrite filter_cons_False by (intros H; apply H, Hl; left).
  apply IH. intros y Hy. apply Hl. by right.
Qed.

(** X18. The recorder's [on_connect] returns, subscribes the spot tokens that
    are not active yet (with one subscribe and one set-mode call, or none),
    leaves every spot token active and does not touch the band; called
    again, as on a reconnection, it makes no call at all: neither the spot
    tokens nor the option band are sent to the feed a second time. *)
Theorem on_connect_subscribes_spot_once (s : state) :
  let s1 := (on_connect s).2 in
  (on_connect s).1 = Ok tt ∧
  ws_calls s1 = ws_calls s
                ++ subscribe_calls (filter (λ x, x ∉ subscribed_tokens s) (spot_tokens s)) ∧
  subscribed_tokens s1 = subscribed_tokens s ∪ list_to_set (spot_tokens s) ∧
  current_option_tokens s1 = current_option_tokens s ∧
  current_atm_strike s1 = current_atm_strike s ∧
  on_connect s1 = (Ok tt, s1).
Proof.
  cbn zeta.
  assert (Hfirst : on_connect s =
            (Ok tt, set_subscribed (subscribed_tokens s ∪ list_to_set (spot_tokens s))
                      (subscribe_calls (filter (λ x, x ∉ subscribed_tokens s) (spot_tokens s)))
                      s)).
  { unfold on_connect, mbind, exec_bind, gets. rewrite subscribe_tokens_spec.
    by rewrite subscribe_nothing by by intros x Hx%elem_of_nil. }
  rewrite Hfirst. cbn [fst snd]. do 5 (split; [done|]).
  unfold on_connect, mbind, exec_bind, gets.
  rewrite subscribe_nothing.
  - by rewrite subscribe_nothing by by intros x Hx%elem_of_nil.
  - intros x Hx. cbn [subscribed_tokens set_subscribed spot_tokens] in *.
    apply elem_of_union. right. by apply elem_of_list_to_set.
Qed.

(** X19. The band moves by difference: whatever its outcome, a call of
    [update_option_band] only appends calls to the feed; an unsubscribe call
    carries only tokens that leave the band, a subscribe or set-mode call
    only tokens that enter it, so a token of both the old and the new band
    is in no call. *)
Theorem band_moves_by_difference (und : string) (p : pyval) (s : state) :
  let s' := (update_option_band und p s).2 in
  ∃ new_calls,
    ws_calls s' = ws_calls s ++ new_calls ∧
    ∀ c tok, c ∈ new_calls → tok ∈ call_tokens c →
             match c with
             | WsUnsubscribe _ =>
                 tok ∈ current_option_tokens s ∧ tok ∉ current_option_tokens s'
             | WsSubscribe _ | WsSetModeFull _ =>
                 (tok ∉ current_option_tokens s) ∧ tok ∈ current_option_tokens s'
             end.
Proof.
  cbn zeta.
  destruct (update_option_band_cases und p s)
    as [(m & _ & ->)|(k & m & new & _ & _ & _ & _ & ->)].
  - exists []. split; [by rewrite app_nil_r|]. by intros c tok Hc%elem_of_nil.
  - rewrite unsubscribe_tokens_spec. cbn [snd]. rewrite subscribe_tokens_spec. cbn [snd].
    cbn [ws_calls current_option_tokens subscribed_tokens set_band set_subscribed with_syms].
    eexists. split; [by rewrite <- app_assoc|].
    intros c tok [Hc|Hc]%elem_of_app Htok.
    + unfold unsubscribe_calls in Hc.
      destruct (filter _ _) as [|y t] eqn:Hf; [by apply elem_of_nil in Hc|].
      apply list_elem_of_singleton in Hc as ->. cbn [call_tokens] in Htok.
      rewrite <- Hf in Htok.
      apply list_elem_of_filter in Htok as [_ Htok%elem_of_elements].
      by apply elem_of_difference in Htok.
    + unfold subscribe_calls in Hc.
      destruct (filter _ _) as [|y t] eqn:Hf; [by apply elem_of_nil in Hc|].
      assert (tok ∈ y :: t) as Hin.
      { by apply elem_of_cons in Hc as [->| ->%list_elem_of_singleton]. }
      rewrite <- Hf in Hin.
      apply list_elem_of_filter in Hin as [_ Hin%elem_of_elements].
      apply elem_of_difference in Hin as [H1 H2].
      by apply elem_of_cons in Hc as [->| ->%list_elem_of_singleton].
Qed.

(** ** The two programs side by side *)

(** X20. On one NSE catalog the recorder finds spot tokens whenever the
    producer does, and finds no token the producer lacks: when the
    comprehension of the producer's [on_connect] returns, so does the one
    of the recorder's main block, with a sub-list of the producer's tokens
    (the recorder compares the symbol as listed, the producer in upper
    case). *)
Theorem recorder_spot_tokens_among_producer_tokens
        (insts : list pyval) (ps : list Z) :
  Producer.wanted_tokens insts = Ok ps →
  ∃ rs, find_spot_tokens insts = Ok rs ∧ rs `sublist_of` ps.
Proof.
  revert ps. induction insts as [|i insts IH]; intros ps Hp.
  - injection Hp as <-. by exists [].
  - rewrite ProducerMore.wanted_tokens_cons in Hp. cbn [find_spot_tokens].
    unfold mbind at 1, result_bind at 1.
    destruct (py_getitem i "tradingsymbol") as [v|]; [|done].
    destruct v as [| | | |sym| | |]; try done. cbn [py_upper py_eq] in *.
    destruct (String.eqb_spec sym "NIFTY 50") as [->|Hsym].
    + rewrite bool_decide_eq_true_2 in Hp by done.
      unfold mbind at 1, result_bind at 1.
      destruct (py_getitem i "instrument_token" ≫= _) as [tok|]; [|done].
      destruct (Producer.wanted_tokens insts) as [ps'|]; [|done]. injection Hp as <-.
      destruct (IH ps' eq_refl) as (rs & -> & Hrs).
      exists (tok :: rs). split; [done|]. by apply sublist_skip.
    + case_bool_decide.
      * destruct (py_getitem i "instrument_token" ≫= _) as [tok|]; [|done].
        destruct (Producer.wanted_tokens insts) as [ps'|]; [|done]. injection Hp as <-.
        destruct (IH ps' eq_refl) as (rs & -> & Hrs).
        exists rs. split; [done|]. by apply sublist_cons.
      * by apply IH.
Qed.

(** Witness for X20: the sample NSE catalog, where the producer takes both
    entries and the recorder the first. *)
Lemma recorder_spot_tokens_among_producer_tokens_witness :
  ∃ rs, find_spot_tokens sample_nse = Ok rs ∧ rs `sublist_of` [SPOT_TOKEN; 260105].
Proof.
  apply (recorder_spot_tokens_among_producer_tokens sample_nse [SPOT_TOKEN; 260105]).
  reflexivity.
Defined.

(** X21. The recorder runs through 15:30:00 and outlasts the producer: for
    a time of day with fields in their ranges, the main loop of the
    recorder goes on exactly up to 55,800 seconds after midnight, that
    instant included, and it goes on whenever the producer's [should_exit]
    does not hold yet. *)
Theorem recorder_runs_through_end_time (now : daytime) :
  valid_time now →
  (keeps_running now = true ↔ micros_of_day now <= 55800 * 1000000) ∧
  (Producer.should_exit now = false → keeps_running now = true).
Proof.
  intros (Hh & Hm & Hs & Hu).
  unfold keeps_running, Producer.should_exit, time_le, time_lt, micros_of_day, END_TIME,
    Producer.MARKET_CLOSE.
  cbn [hour minute second microsecond].
  rewrite !negb_true_iff, !negb_false_iff, <- !not_true_iff_false.
  rewrite !orb_true_iff, !andb_true_iff, !Z.ltb_lt, !Z.eqb_eq. lia.
Qed.

(** Witness for X21: 15:30:00.000000 itself. *)
Lemma recorder_runs_through_end_time_witness :
  (keeps_running (mktime 15 30 0 0) = true
   ↔ micros_of_day (mktime 15 30 0 0) <= 55800 * 1000000) ∧
  (Producer.should_exit (mktime 15 30 0 0) = false → keeps_running (mktime 15 30 0 0) = true).
Proof.
  apply (recorder_runs_through_end_time (mktime 15 30 0 0)).
  unfold valid_time; cbn; lia.
Defined.

End RecorderMore.
